(** * Shared cache client and rate limiter

    A shallow embedding of
    [src/lambda/layers/common/python/shared/cache_client.py]:
    the process-wide [RedisCache] handle with its [get], [set], [delete]
    and [increment] primitives, and the [RateLimiter] built on top of it.

    The Python methods run in a state-and-exception monad over a [world]
    made of the interpreter-side state of the process (the module constant
    [REDIS_AVAILABLE], [os.environ], the class attributes of [RedisCache],
    the emitted log records), the state of the remote key-value store, and
    the list of calls made on the client object.  The remote store is an
    interface ([Backend]); a reference instance with keys, expiry
    deadlines and a clock is given in [Module Redis]. *)

From Stdlib Require Import ZArith String List Bool Lia DecimalString.
From stdpp Require Import base option list gmap strings.

Open Scope string_scope.
Open Scope list_scope.
Open Scope Z_scope.

(** ** Exceptions and outcomes *)

(** Exceptions deriving from [Exception]; each carries its message.
    [OtherError] is an instance of any class not listed, given by the
    name of its class. *)
Inductive exn : Type :=
| ConnectionError (msg : string)
| TimeoutError (msg : string)
| ResponseError (msg : string)
| TypeError (msg : string)
| ValueError (msg : string)
| JSONDecodeError (msg : string)
| RecursionError (msg : string)
| OtherError (class_name msg : string).

(** [str(e)] *)
Definition str_exn (e : exn) : string :=
  match e with
  | ConnectionError msg | TimeoutError msg | ResponseError msg
  | TypeError msg | ValueError msg | JSONDecodeError msg
  | RecursionError msg | OtherError _ msg => msg
  end.

(** How a call ends: it returns a value or an exception leaves it. *)
Inductive outcome (A : Type) : Type :=
| Returned (a : A)
| Raised (e : exn).
Arguments Returned {A} a.
Arguments Raised {A} e.

Definition returns {A : Type} (o : outcome A) : bool :=
  match o with Returned _ => true | Raised _ => false end.

(** ** Python values *)

(** Hashable values that occur as dictionary keys.  A float is given by
    its [repr] ([1.5], [1e+22], [inf], [nan]), which names it. *)
#[warnings="-register-all"]
Inductive pykey : Type :=
| KNone
| KBool (b : bool)
| KInt (n : Z)
| KFloat (repr : string)
| KStr (s : string)
| KTuple (ks : list pykey).

(** Values handed to [set] and returned by [get]: finite trees built from
    the built-in types.  A dictionary keeps its items in insertion order.
    A float is given by its [repr].  [PObject cls levels shown] is an
    object of a class the [json] module has no encoding for (a
    [datetime], a [set], a [Decimal]): [cls] is the name of its class,
    [shown] is what [str] does on it, and [levels] is how many nested
    calls the interpreter makes to call [str] on it and encode the result
    (in CPython 3.11: 2 for a [Decimal], 3 for a [date] or for a
    [__str__] written in Python that calls nothing, 4 for a [set]).

    A list or dictionary that contains itself is not a finite tree and has
    no counterpart here. *)
#[warnings="-register-all"]
Inductive pyval : Type :=
| PNone
| PBool (b : bool)
| PInt (n : Z)
| PFloat (repr : string)
| PStr (s : string)
| PList (vs : list pyval)
| PTuple (vs : list pyval)
| PDict (items : list (pykey * pyval))
| PObject (cls : string) (levels : nat) (shown : outcome string).

(** ** The interpreter

    What the [json] module depends on besides its argument.
    [recursion_budget] is how many nested calls the encoder and the
    scanner can still make where this code calls them:
    [sys.getrecursionlimit()] less the frames in use.  Entering a list, a
    tuple or a dictionary, empty or not, takes one.  All calls of [json]
    are taken to be made with the same budget. *)
Class Interpreter : Type := {
  recursion_budget : nat
}.

(** The default limit of 1000 with a few frames in use. *)
#[global] Instance cpython : Interpreter := {| recursion_budget := 990 |}.

(** [sys.get_int_max_str_digits()], which the code leaves at its default:
    an [int] converts to or from decimal text only if it has at most 4300
    digits. *)
Definition int_max_str_digits : Z := 4300.

Definition int_fits (n : Z) : bool := Z.abs n <? 10 ^ int_max_str_digits.

(** ** The [json] module

    A JSON document, and the text kept under a key of the store.  The
    character-level syntax is not modelled: a stored text is identified
    with the document it denotes ([Doc]); a text that is not a JSON
    document at all, the empty text among them, is a [Blob].  A number
    with a fraction or an exponent, and the tokens [NaN], [Infinity] and
    [-Infinity], denote a float, given by its [repr]. *)
#[warnings="-register-all"]
Inductive json : Type :=
| JNull
| JBool (b : bool)
| JInt (n : Z)
| JFloat (repr : string)
| JStr (s : string)
| JArr (elems : list json)
| JObj (members : list (string * json)).

Inductive text : Type :=
| Doc (d : json)
| Blob (raw : string).

(** Truth value of a [str]: false exactly for the empty one. *)
Definition text_truthy (t : text) : bool :=
  match t with
  | Doc _ => true
  | Blob raw => negb (String.eqb raw "")
  end.

(** [str(n)] for an [int]. *)
Definition str_int (n : Z) : string := NilZero.string_of_int (Z.to_int n).

(** [int(s)] for a [str]: a decimal literal with an optional minus sign.
    Python also strips blanks and accepts a plus sign, underscores
    between digits and decimal digits of other scripts; those forms raise
    here. *)
Definition py_int (s : string) : outcome Z :=
  match NilZero.int_of_string s with
  | Some d => Returned (Z.of_int d)
  | None => Raised (ValueError ("invalid literal for int() with base 10: '" +:+ s +:+ "'"))
  end.

(** The text the encoder writes for a float. *)
Definition float_literal (repr : string) : string :=
  if String.eqb repr "nan" then "NaN"
  else if String.eqb repr "inf" then "Infinity"
  else if String.eqb repr "-inf" then "-Infinity"
  else repr.

Definition int_too_long : exn :=
  ValueError
    ("Exceeds the limit (4300 digits) for integer string conversion; "
     +:+ "use sys.set_int_max_str_digits() to increase the limit").

Definition too_deep : exn :=
  RecursionError "maximum recursion depth exceeded while encoding a JSON object".

(** The name a dictionary key gets in a JSON object: [str] keys are kept,
    [None], [bool], [int] and [float] keys are coerced, any other key is
    refused (the [default] hook is not consulted for keys). *)
Definition key_name (k : pykey) : outcome string :=
  match k with
  | KStr s => Returned s
  | KNone => Returned "null"
  | KBool true => Returned "true"
  | KBool false => Returned "false"
  | KInt n => if int_fits n then Returned (str_int n) else Raised int_too_long
  | KFloat repr => Returned (float_literal repr)
  | KTuple _ =>
      Raised (TypeError "keys must be str, int, float, bool or None, not tuple")
  end.

(** The first exception of a list of outcomes, or all their values. *)
Fixpoint sequence {A : Type} (l : list (outcome A)) : outcome (list A) :=
  match l with
  | [] => Returned []
  | Raised e :: _ => Raised e
  | Returned a :: rest =>
      match sequence rest with
      | Returned l' => Returned (a :: l')
      | Raised e => Raised e
      end
  end.

Definition and_then {A C : Type} (o : outcome A) (k : A -> outcome C) : outcome C :=
  match o with
  | Returned a => k a
  | Raised e => Raised e
  end.

(** What the encoder does with an object it has no encoding for, with
    [budget] nested calls left.  With [default=str] it calls [str] on the
    object and writes the result as a string, which takes the [levels] of
    the object; where the stack runs out depends on the object, and so
    does the text that follows "exceeded" in the message.  Without a hook
    it calls its own [default], which raises [TypeError]; that call takes
    two levels. *)
Definition dumps_object (default_str : bool) (budget : nat)
    (cls : string) (levels : nat) (shown : outcome string) : outcome json :=
  if default_str then
    if (budget <? levels)%nat then
      Raised (RecursionError "maximum recursion depth exceeded")
    else and_then shown (fun s => Returned (JStr s))
  else
    if (budget <? 2)%nat then
      Raised (RecursionError "maximum recursion depth exceeded while calling a Python object")
    else
      Raised (TypeError ("Object of type " +:+ cls +:+ " is not JSON serializable")).

(** The document [json.dumps] writes with [budget] nested calls left, in
    the order the encoder goes through the value: lists and tuples both
    become arrays; in a dictionary the key of an item is converted before
    its value is encoded; an [int] beyond the digit limit makes the
    conversion raise. *)
Fixpoint dumps (default_str : bool) (budget : nat) (v : pyval) {struct v}
    : outcome json :=
  match v with
  | PNone => Returned JNull
  | PBool b => Returned (JBool b)
  | PInt n => if int_fits n then Returned (JInt n) else Raised int_too_long
  | PFloat repr => Returned (JFloat repr)
  | PStr s => Returned (JStr s)
  | PList vs | PTuple vs =>
      match budget with
      | O => Raised too_deep
      | S budget' =>
          and_then (sequence (map (dumps default_str budget') vs))
            (fun js => Returned (JArr js))
      end
  | PDict items =>
      match budget with
      | O => Raised too_deep
      | S budget' =>
          and_then
            (sequence
               (map (fun kv =>
                       and_then (key_name (fst kv)) (fun name =>
                       and_then (dumps default_str budget' (snd kv)) (fun j =>
                       Returned (name, j))))
                  items))
            (fun ms => Returned (JObj ms))
      end
  | PObject cls levels shown => dumps_object default_str budget cls levels shown
  end.

(** The document [json.dumps(value, default=str)] writes. *)
Definition encode `{Interpreter} (v : pyval) : outcome json :=
  dumps true recursion_budget v.

Definition json_dumps_default_str `{Interpreter} (value : pyval) : outcome text :=
  and_then (encode value) (fun d => Returned (Doc d)).

(** [d[name] = v] on a dictionary under construction: an existing item
    keeps its place and takes the new value, a new one goes last. *)
Fixpoint dict_setitem (name : string) (v : pyval)
    (d : list (string * pyval)) : list (string * pyval) :=
  match d with
  | [] => [(name, v)]
  | (name', v') :: rest =>
      if String.eqb name name' then (name', v) :: rest
      else (name', v') :: dict_setitem name v rest
  end.

Definition dict_of_pairs (pairs : list (string * pyval)) : list (string * pyval) :=
  fold_left (fun d p => dict_setitem (fst p) (snd p) d) pairs [].

(** The value a document denotes, as [json.loads] builds it. *)
Fixpoint decode (d : json) : pyval :=
  match d with
  | JNull => PNone
  | JBool b => PBool b
  | JInt n => PInt n
  | JFloat repr => PFloat repr
  | JStr s => PStr s
  | JArr elems => PList (map decode elems)
  | JObj members =>
      PDict (map (fun p => (KStr (fst p), snd p))
               (dict_of_pairs (map (fun m => (fst m, decode (snd m))) members)))
  end.

Definition literal_too_long (n : Z) : exn :=
  ValueError
    ("Exceeds the limit (4300 digits) for integer string conversion: value has "
     +:+ str_int (Z.of_nat (String.length (str_int (Z.abs n))))
     +:+ " digits; use sys.set_int_max_str_digits() to increase the limit").

(** What stops the scanner of [json.loads] on a document, with [budget]
    nested calls left: an array or an object takes one, and an integer
    literal beyond the digit limit does not convert. *)
Fixpoint scan (budget : nat) (d : json) {struct d} : outcome unit :=
  match d with
  | JNull | JBool _ | JFloat _ | JStr _ => Returned tt
  | JInt n => if int_fits n then Returned tt else Raised (literal_too_long n)
  | JArr elems =>
      match budget with
      | O =>
          Raised (RecursionError
                    "maximum recursion depth exceeded while decoding a JSON array from a unicode string")
      | S budget' =>
          and_then (sequence (map (scan budget') elems)) (fun _ => Returned tt)
      end
  | JObj members =>
      match budget with
      | O =>
          Raised (RecursionError
                    "maximum recursion depth exceeded while decoding a JSON object from a unicode string")
      | S budget' =>
          and_then (sequence (map (fun m => scan budget' (snd m)) members))
            (fun _ => Returned tt)
      end
  end.

(** [json.loads]: the value of a document; a text that is not one raises
    (the message kept is the one for a text that does not start a JSON
    value). *)
Definition json_loads `{Interpreter} (t : text) : outcome pyval :=
  match t with
  | Doc d => and_then (scan recursion_budget d) (fun _ => Returned (decode d))
  | Blob raw => Raised (JSONDecodeError "Expecting value: line 1 column 1 (char 0)")
  end.

(** ** The process and the connection *)

(** A [redis.Redis] client object: the arguments it was built with. *)
Record client : Type := Redis {
  host : string;
  port : Z;
  password : string;
  ssl : bool;
  decode_responses : bool;
  socket_connect_timeout : Z;
  socket_timeout : Z;
  retry_on_timeout : bool;
  health_check_interval : Z
}.

Inductive level : Type := INFO | WARNING | ERROR.

(** One record emitted through the Powertools [Logger]. *)
Record log_record : Type := LogRecord {
  severity : level;
  message : string;
  extra : list (string * pyval)
}.

(** Interpreter-side state: the module constant [REDIS_AVAILABLE] fixed at
    import, [os.environ], the two attributes of [RedisCache] and the log.
    [RedisCache] is a singleton, so the attribute [_redis_client] that the
    methods read through [self] is one slot of the process; [_instance]
    tells whether the instance has been created yet. *)
Record process : Type := Process {
  REDIS_AVAILABLE : bool;
  environ : gmap string string;
  _instance : bool;
  _redis_client : option client;
  journal : list log_record
}.

(** A call of a method of the client object: [ping()], [get(key)],
    [setex(key, ttl, value)], [delete(key)], [incr(key, amount)],
    [expire(key, ttl)].  What the client library puts on the connection
    to serve one call is its own business and is not followed here: the
    client that [_connect] configures sends a [PING] of its own before a
    command when the connection has been idle for
    [health_check_interval] seconds, and sends a command again after a
    timeout. *)
Inductive request : Type :=
| PING
| GET (key : string)
| SETEX (key : string) (ttl : Z) (value : text)
| DEL (key : string)
| INCRBY (key : string) (amount : Z)
| EXPIRE (key : string) (ttl : Z).

(** The remote store as the client methods see it: each method, called on
    a client, answers or raises, and moves the store to a new state. *)
Class Backend (B : Type) : Type := {
  redis_ping : client -> B -> outcome unit * B;
  redis_get : client -> string -> B -> outcome (option text) * B;
  redis_setex : client -> string -> Z -> text -> B -> outcome unit * B;
  redis_delete : client -> string -> B -> outcome Z * B;
  redis_incr : client -> string -> Z -> B -> outcome Z * B;
  redis_expire : client -> string -> Z -> B -> outcome bool * B
}.

Record world (B : Type) : Type := World {
  proc : process;
  backend : B;
  wire : list request
}.
Arguments World {B} proc backend wire.
Arguments proc {B} w.
Arguments backend {B} w.
Arguments wire {B} w.

(** ** The monad of method bodies *)

Definition M (B A : Type) : Type := world B -> outcome A * world B.

Definition ret {B A : Type} (a : A) : M B A := fun w => (Returned a, w).

Definition bind {B A C : Type} (m : M B A) (k : A -> M B C) : M B C :=
  fun w =>
    match m w with
    | (Returned a, w') => k a w'
    | (Raised e, w') => (Raised e, w')
    end.

Definition lift {B A : Type} (o : outcome A) : M B A := fun w => (o, w).

(** [try: body  except Exception as e: handler e] *)
Definition try_except {B A : Type} (body : M B A) (handler : exn -> M B A) : M B A :=
  fun w =>
    match body w with
    | (Returned a, w') => (Returned a, w')
    | (Raised e, w') => handler e w'
    end.

Notation "x <- m ;; k" := (bind m (fun x => k))
  (at level 100, m at next level, right associativity).
Notation "m ;; k" := (bind m (fun _ => k))
  (at level 100, right associativity).

Definition with_client (c : option client) (p : process) : process :=
  Process (REDIS_AVAILABLE p) (environ p) (_instance p) c (journal p).

Definition with_instance (p : process) : process :=
  Process (REDIS_AVAILABLE p) (environ p) true (_redis_client p) (journal p).

Definition with_record (r : log_record) (p : process) : process :=
  Process (REDIS_AVAILABLE p) (environ p) (_instance p) (_redis_client p)
    (journal p ++ [r]).

Definition read {B A : Type} (field : process -> A) : M B A :=
  fun w => (Returned (field (proc w)), w).

Definition modify {B : Type} (f : process -> process) : M B unit :=
  fun w => (Returned tt, World (f (proc w)) (backend w) (wire w)).

(** One call of a client method: it is recorded in [wire] whatever the
    answer is. *)
Definition call {B R : Type} (req : request) (serve : B -> outcome R * B) : M B R :=
  fun w =>
    let (answer, b) := serve (backend w) in
    (answer, World (proc w) b (wire w ++ [req])).

Definition logger {B : Type} (lv : level) (msg : string)
    (ext : list (string * pyval)) : M B unit :=
  modify (with_record (LogRecord lv msg ext)).

(** [os.environ.get(name, default)] *)
Definition environ_get {B : Type} (name default : string) : M B string :=
  read (fun p => match environ p !! name with Some v => v | None => default end).

(** ** class RedisCache *)

Module RedisCache.
Section Methods.
Context `{Interpreter} {B : Type} `{Backend B}.

Definition __new__ : M B unit :=
  inst <- read _instance ;;
  if inst then ret tt else modify with_instance.

(** The expression [redis.Redis(host=..., port=int(...), ...)]. *)
Definition redis_Redis : M B client :=
  endpoint <- environ_get "REDIS_ENDPOINT" "" ;;
  port_text <- environ_get "REDIS_PORT" "6379" ;;
  port_number <- lift (py_int port_text) ;;
  token <- environ_get "REDIS_AUTH_TOKEN" "" ;;
  ret (Redis endpoint port_number token true true 5 5 true 30).

Definition _connect : M B unit :=
  available <- read REDIS_AVAILABLE ;;
  if negb available then ret tt
  else
    try_except
      (c <- redis_Redis ;;
       modify (with_client (Some c)) ;;
       call PING (redis_ping c) ;;
       logger INFO "Redis connection established" [])
      (fun _ =>
         logger ERROR "Failed to connect to Redis" [] ;;
         modify (with_client None)).

Definition __init__ : M B unit :=
  available <- read REDIS_AVAILABLE ;;
  if negb available then
    logger WARNING "Redis library not available, caching disabled" []
  else
    current <- read _redis_client ;;
    match current with
    | None => _connect
    | Some _ => ret tt
    end.

(** The expression [RedisCache()]: [__new__], then [__init__] on the
    object it returned, every time. *)
Definition RedisCache : M B unit := __new__ ;; __init__.

Definition get (key : string) : M B pyval :=
  current <- read _redis_client ;;
  match current with
  | None => ret PNone
  | Some c =>
      try_except
        (value <- call (GET key) (redis_get c key) ;;
         match value with
         | Some t =>
             if text_truthy t then lift (json_loads t) else ret PNone
         | None => ret PNone
         end)
        (fun e =>
           logger ERROR ("Redis GET error: " +:+ str_exn e) [] ;;
           ret PNone)
  end.

Definition set (key : string) (value : pyval) (ttl : Z) : M B bool :=
  current <- read _redis_client ;;
  match current with
  | None => ret false
  | Some c =>
      try_except
        (serialized <- lift (json_dumps_default_str value) ;;
         call (SETEX key ttl serialized) (redis_setex c key ttl serialized) ;;
         ret true)
        (fun e =>
           logger ERROR ("Redis SET error: " +:+ str_exn e) [] ;;
           ret false)
  end.

Definition delete (key : string) : M B bool :=
  current <- read _redis_client ;;
  match current with
  | None => ret false
  | Some c =>
      try_except
        (call (DEL key) (redis_delete c key) ;;
         ret true)
        (fun e =>
           logger ERROR ("Redis DELETE error: " +:+ str_exn e) [] ;;
           ret false)
  end.

Definition increment (key : string) (amount : Z) (ttl : option Z) : M B (option Z) :=
  current <- read _redis_client ;;
  match current with
  | None => ret None
  | Some c =>
      try_except
        (value <- call (INCRBY key amount) (redis_incr c key amount) ;;
         (* [if ttl and value == amount]: [None] and [0] are false *)
         (match ttl with
          | Some t =>
              if negb (t =? 0) && (value =? amount)
              then call (EXPIRE key t) (redis_expire c key t) ;; ret tt
              else ret tt
          | None => ret tt
          end) ;;
         ret (Some value))
        (fun e =>
           logger ERROR ("Redis INCR error: " +:+ str_exn e) [] ;;
           ret None)
  end.
End Methods.
End RedisCache.

(** ** class RateLimiter

    The limiter keeps a reference to the cache handle and nothing else;
    the handle it refers to is the singleton of the process. *)

Module RateLimiter.
Section Methods.
Context {B : Type} `{Backend B}.

Definition is_allowed (identifier : string) (max_requests window_seconds : Z)
    : M B bool :=
  let key := "ratelimit:" +:+ identifier in
  current_count <- RedisCache.increment key 1 (Some window_seconds) ;;
  match current_count with
  | None =>
      logger WARNING "Rate limiter cache unavailable, allowing request" [] ;;
      ret true
  | Some count =>
      let allowed := count <=? max_requests in
      (if negb allowed then
         logger WARNING "Rate limit exceeded"
           [("identifier", PStr identifier); ("count", PInt count);
            ("limit", PInt max_requests)]
       else ret tt) ;;
      ret allowed
  end.
End Methods.
End RateLimiter.

(** ** Callers

    What the code above the core does with it: a sequence of method calls
    and of [RedisCache()] expressions, with the rest of the world (time
    passing, the network coming and going, other clients of the store)
    acting on the backend in between. *)

Inductive operation : Type :=
| Op_get (key : string)
| Op_set (key : string) (value : pyval) (ttl : Z)
| Op_delete (key : string)
| Op_increment (key : string) (amount : Z) (ttl : option Z)
| Op_is_allowed (identifier : string) (max_requests window_seconds : Z).

Inductive answer : Type :=
| Value (v : pyval)
| Flag (b : bool)
| Count (n : option Z)
| Handle.

Inductive step (B : Type) : Type :=
| Do (o : operation)
| Instantiate
| Env (change : B -> B).
Arguments Do {B} o.
Arguments Instantiate {B}.
Arguments Env {B} change.


Section Callers.
Context `{Interpreter} {B : Type} `{Backend B}.

Definition perform (o : operation) : M B answer :=
  match o with
  | Op_get key => v <- RedisCache.get key ;; ret (Value v)
  | Op_set key value ttl => ok <- RedisCache.set key value ttl ;; ret (Flag ok)
  | Op_delete key => ok <- RedisCache.delete key ;; ret (Flag ok)
  | Op_increment key amount ttl =>
      n <- RedisCache.increment key amount ttl ;; ret (Count n)
  | Op_is_allowed identifier max_requests window_seconds =>
      ok <- RateLimiter.is_allowed identifier max_requests window_seconds ;;
      ret (Flag ok)
  end.

Definition environment (change : B -> B) (w : world B) : world B :=
  World (proc w) (change (backend w)) (wire w).

(** The outcomes of the calls, in order, and the world they leave. *)
Fixpoint run (steps : list (step B)) (w : world B)
    : list (outcome answer) * world B :=
  match steps with
  | [] => ([], w)
  | Do o :: rest =>
      let (a, w1) := perform o w in
      let (outs, w2) := run rest w1 in
      (a :: outs, w2)
  | Instantiate :: rest =>
      let (a, w1) := (RedisCache.RedisCache ;; ret Handle) w in
      let (outs, w2) := run rest w1 in
      (a :: outs, w2)
  | Env change :: rest => run rest (environment change w)
  end.
End Callers.

(** ** A reference backend

    A single Redis server: each key holds a text and possibly a deadline
    after which the key is gone; the server has a clock and may be out of
    reach.  Counters are integers without bound here.  The real server
    keeps signed 64-bit integers: it refuses an amount outside that range
    and an increment that would leave it, and does not take a stored
    integer outside it for a number.  The model agrees with it as long as
    counters and amounts stay in the range ([int64] below). *)

Module Redis.
Record entry : Type := Entry {
  payload : text;
  deadline : option Z
}.

Record server : Type := Server {
  store : gmap string entry;
  now : Z;
  online : bool
}.

Definition expired (t : Z) (e : entry) : bool :=
  match deadline e with
  | Some d => d <=? t
  | None => false
  end.

(** The entry under a key, if the key exists at the current time. *)
Definition live (key : string) (s : server) : option entry :=
  match store s !! key with
  | Some e => if expired (now s) e then None else Some e
  | None => None
  end.

Definition with_store (m : gmap string entry) (s : server) : server :=
  Server m (now s) (online s).

Definition unreachable {A : Type} (s : server) : outcome A * server :=
  (Raised (ConnectionError "Error connecting to server"), s).

Definition int_of_text (t : text) : option Z :=
  match t with
  | Doc (JInt n) => Some n
  | _ => None
  end.

Definition ping (c : client) (s : server) : outcome unit * server :=
  if online s then (Returned tt, s) else unreachable s.

Definition get (c : client) (key : string) (s : server)
    : outcome (option text) * server :=
  if online s then (Returned (payload <$> live key s), s) else unreachable s.

Definition setex (c : client) (key : string) (ttl : Z) (value : text) (s : server)
    : outcome unit * server :=
  if online s then
    if ttl <=? 0 then
      (Raised (ResponseError "invalid expire time in 'setex' command"), s)
    else
      (Returned tt, with_store (<[key := Entry value (Some (now s + ttl))]> (store s)) s)
  else unreachable s.

Definition del (c : client) (key : string) (s : server) : outcome Z * server :=
  if online s then
    (Returned (match live key s with Some _ => 1 | None => 0 end),
     with_store (base.delete key (store s)) s)
  else unreachable s.

Definition incrby (c : client) (key : string) (amount : Z) (s : server)
    : outcome Z * server :=
  if online s then
    match live key s with
    | None =>
        (Returned amount,
         with_store (<[key := Entry (Doc (JInt amount)) None]> (store s)) s)
    | Some e =>
        match int_of_text (payload e) with
        | Some n =>
            (Returned (n + amount),
             with_store
               (<[key := Entry (Doc (JInt (n + amount))) (deadline e)]> (store s)) s)
        | None =>
            (Raised (ResponseError "value is not an integer or out of range"), s)
        end
    end
  else unreachable s.

Definition expire (c : client) (key : string) (ttl : Z) (s : server)
    : outcome bool * server :=
  if online s then
    match live key s with
    | None => (Returned false, s)
    | Some e =>
        if ttl <=? 0 then
          (Returned true, with_store (base.delete key (store s)) s)
        else
          (Returned true,
           with_store (<[key := Entry (payload e) (Some (now s + ttl))]> (store s)) s)
    end
  else unreachable s.

#[global] Instance is_backend : Backend server := {
  redis_ping := ping;
  redis_get := get;
  redis_setex := setex;
  redis_delete := del;
  redis_incr := incrby;
  redis_expire := expire
}.

(** What happens around the server. *)
Definition tick (dt : Z) (s : server) : server :=
  Server (store s) (now s + dt) (online s).

Definition unplug (s : server) : server := Server (store s) (now s) false.

Definition plug (s : server) : server := Server (store s) (now s) true.
End Redis.

(** A backend that no request ever reaches. *)
Module Unreachable.
Definition refuse {A : Type} (b : unit) : outcome A * unit :=
  (Raised (ConnectionError "Connection refused"), b).

#[global] Instance is_backend : Backend unit := {
  redis_ping := fun _ => refuse;
  redis_get := fun _ _ => refuse;
  redis_setex := fun _ _ _ _ => refuse;
  redis_delete := fun _ _ => refuse;
  redis_incr := fun _ _ _ => refuse;
  redis_expire := fun _ _ _ => refuse
}.
End Unreachable.

(** ** Classes of values *)

Fixpoint distinct (names : list string) : bool :=
  match names with
  | [] => true
  | n :: rest => negb (existsb (String.eqb n) rest) && distinct rest
  end.

Definition is_str_key (k : pykey) : bool :=
  match k with
  | KStr _ => true
  | _ => false
  end.

Definition key_text (k : pykey) : string :=
  match k with
  | KStr s => s
  | _ => ""
  end.

(** The values that come back from the store as they went in: [None],
    booleans, integers of at most 4300 digits, floats other than NaN
    (which is a float again when read back, but equal to nothing, itself
    included), strings, lists of such values, and dictionaries from
    distinct [str] keys to such values. *)
Fixpoint json_native (v : pyval) : bool :=
  match v with
  | PNone | PBool _ | PStr _ => true
  | PInt n => int_fits n
  | PFloat repr => negb (String.eqb repr "nan")
  | PList vs => forallb json_native vs
  | PDict items =>
      forallb (fun kv => is_str_key (fst kv) && json_native (snd kv)) items
      && distinct (map (fun kv => key_text (fst kv)) items)
  | PTuple _ | PObject _ _ _ => false
  end.

Definition key_supported (k : pykey) : bool :=
  match k with
  | KTuple _ => false
  | _ => true
  end.

(** Every dictionary inside the value, at any depth, has only [str],
    [int], [float], [bool] or [None] keys. *)
Fixpoint keys_supported (v : pyval) : bool :=
  match v with
  | PNone | PBool _ | PInt _ | PFloat _ | PStr _ | PObject _ _ _ => true
  | PList vs | PTuple vs => forallb keys_supported vs
  | PDict items =>
      forallb (fun kv => key_supported (fst kv) && keys_supported (snd kv)) items
  end.

Definition key_fits (k : pykey) : bool :=
  match k with
  | KInt n => int_fits n
  | _ => true
  end.

(** Every [int] inside the value, as a value or as a dictionary key, has
    at most 4300 digits. *)
Fixpoint ints_fit (v : pyval) : bool :=
  match v with
  | PInt n => int_fits n
  | PNone | PBool _ | PFloat _ | PStr _ | PObject _ _ _ => true
  | PList vs | PTuple vs => forallb ints_fit vs
  | PDict items => forallb (fun kv => key_fits (fst kv) && ints_fit (snd kv)) items
  end.

(** [str] returns on every object without an encoding inside the value. *)
Fixpoint printable (v : pyval) : bool :=
  match v with
  | PObject _ _ shown => returns shown
  | PNone | PBool _ | PInt _ | PFloat _ | PStr _ => true
  | PList vs | PTuple vs => forallb printable vs
  | PDict items => forallb (fun kv => printable (snd kv)) items
  end.

(** The nested calls the encoder with [default=str] makes on the value:
    one for each level of lists, tuples and dictionaries, and at the
    bottom what an object takes. *)
Fixpoint depth (v : pyval) : nat :=
  match v with
  | PNone | PBool _ | PInt _ | PFloat _ | PStr _ => 0
  | PList vs | PTuple vs => S (list_max (map depth vs))
  | PDict items => S (list_max (map (fun kv => depth (snd kv)) items))
  | PObject _ levels _ => levels
  end.


(** What [get] returns for a value that [set] has written. *)
Fixpoint coerced (v : pyval) : pyval :=
  match v with
  | PNone | PBool _ | PInt _ | PFloat _ | PStr _ => v
  | PList vs | PTuple vs => PList (map coerced vs)
  | PDict items =>
      PDict (map (fun p => (KStr (fst p), snd p))
               (dict_of_pairs
                  (map (fun kv =>
                          (match key_name (fst kv) with
                           | Returned name => name
                           | Raised _ => ""
                           end,
                           coerced (snd kv)))
                     items)))
  | PObject _ _ shown =>
      PStr match shown with Returned s => s | Raised _ => "" end
  end.

(** An interpreter that is one nested call away from its recursion
    limit. *)
Definition shallow : Interpreter := {| recursion_budget := 1 |}.

(** A value nested [n] lists deep. *)
Fixpoint nested (n : nat) : pyval :=
  match n with
  | O => PNone
  | S n' => PList [nested n']
  end.

(** The range of the integers of the Redis server. *)
Definition int64 (n : Z) : Prop :=
  -9223372036854775808 <= n <= 9223372036854775807.

(** A process that has just imported the module, in an environment that
    names the endpoint. *)
Definition fresh_process (available : bool) : process :=
  Process available
    (<["REDIS_ENDPOINT" := "cache.internal"]> (<["REDIS_PORT" := "6380"]> ∅))
    false None [].

Definition empty_server (up : bool) : Redis.server := Redis.Server ∅ 0 up.

(** A world in which nothing has happened yet. *)
Definition boot {B : Type} (available : bool) (b : B) : world B :=
  World (fresh_process available) b [].

(** Steps of a caller that only consults the limiter. *)
Definition limiter_step {B : Type} (s : step B) : bool :=
  match s with
  | Do (Op_is_allowed _ _ _) => true
  | Env _ => true
  | _ => false
  end.

(** The world [RedisCache()] leaves. *)
Definition instantiated {B : Type} `{Backend B} (w : world B) : world B :=
  snd (RedisCache.RedisCache w).

(** Time spent in a list of pauses. *)
Definition elapsed (gaps : list Z) : Z := foldr Z.add 0 gaps.

(** The same call again and again, with a pause before each repetition. *)
Definition paced (o : operation) (gaps : list Z) : list (step Redis.server) :=
  Do o :: flat_map (fun d => [Env (Redis.tick d); Do o]) gaps.

(** A connected handle in front of a reachable server that holds the
    integer [n] under [key], with deadline [dl]. *)
Definition counting (w : world Redis.server) (c : client) (key : string)
    (n : Z) (dl : option Z) : Prop :=
  _redis_client (proc w) = Some c
  /\ Redis.online (backend w) = true
  /\ Redis.live key (backend w) = Some (Redis.Entry (Doc (JInt n)) dl).

(** The limiter's answers to [k] more calls once the count is [n]. *)
Fixpoint verdicts (n limit : Z) (k : nat) : list (outcome answer) :=
  match k with
  | O => []
  | S k' => Returned (Flag (n + 1 <=? limit)) :: verdicts (n + 1) limit k'
  end.

(** The client [_connect] builds in [fresh_process]. *)
Definition configured : client :=
  Redis "cache.internal" 6380 "" true true 5 5 true 30.

(** After the first [RedisCache()]: in front of an empty server that
    answers, and in front of one that does not. *)
Definition serving : world Redis.server :=
  instantiated (boot true (empty_server true)).

Definition stranded : world Redis.server :=
  instantiated (boot true (empty_server false)).

(** ** Notions used by the further properties of the cache client *)

(** The one key of the store that an operation addresses. *)
Definition key_of (o : operation) : string :=
  match o with
  | Op_get key | Op_set key _ _ | Op_delete key | Op_increment key _ _ => key
  | Op_is_allowed identifier _ _ => "ratelimit:" +:+ identifier
  end.

(** The values a counter takes under successive increments. *)
Fixpoint running_totals (start : Z) (amounts : list Z) : list Z :=
  match amounts with
  | [] => []
  | a :: rest => (start + a) :: running_totals (start + a) rest
  end.

(** The connection settings that [_connect] fixes whatever the
    environment says. *)
Definition hardened (c : client) : Prop :=
  ssl c = true
  /\ decode_responses c = true
  /\ socket_connect_timeout c = 5
  /\ socket_timeout c = 5
  /\ retry_on_timeout c = true
  /\ health_check_interval c = 30.

(** * The request-handling scaffold

    [shared/exceptions.py], [shared/utils.py], [shared/config.py] and the
    handler of the response-validator function.  None of them uses the
    cache client.  The Powertools decorators of [lambda_handler] (context
    injection, tracing, metrics flushing) are library code: the handler
    is modelled as the function they are applied to, and the decorators
    as an interface around it. *)

(** ** shared/exceptions.py *)

Module Exceptions.
Inductive class : Type :=
| LambdaError
| ValidationError
| ConfigurationError
| ExternalServiceError
| BedrockError
| DynamoDBError
| CacheError.

(** The base written in the class statement; [None] stands for
    [Exception], the base of [LambdaError]. *)
Definition base (k : class) : option class :=
  match k with
  | LambdaError => None
  | ValidationError | ConfigurationError | ExternalServiceError => Some LambdaError
  | BedrockError | DynamoDBError | CacheError => Some ExternalServiceError
  end.

Definition same (k k' : class) : bool :=
  match k, k' with
  | LambdaError, LambdaError
  | ValidationError, ValidationError
  | ConfigurationError, ConfigurationError
  | ExternalServiceError, ExternalServiceError
  | BedrockError, BedrockError
  | DynamoDBError, DynamoDBError
  | CacheError, CacheError => true
  | _, _ => false
  end.

(** [issubclass(k, k')], following [base] upwards; the hierarchy is two
    levels deep below [LambdaError]. *)
Fixpoint climbs (fuel : nat) (k k' : class) : bool :=
  same k k'
  || match fuel, base k with
     | S fuel', Some parent => climbs fuel' parent k'
     | _, _ => false
     end.

Definition issubclass (k k' : class) : bool := climbs 2 k k'.

(** [type(e).__name__] *)
Definition name (k : class) : string :=
  match k with
  | LambdaError => "LambdaError"
  | ValidationError => "ValidationError"
  | ConfigurationError => "ConfigurationError"
  | ExternalServiceError => "ExternalServiceError"
  | BedrockError => "BedrockError"
  | DynamoDBError => "DynamoDBError"
  | CacheError => "CacheError"
  end.
End Exceptions.

(** An exception raised in the scaffold: an instance of a class of
    [shared.exceptions], one of the built-in exceptions already met in the
    cache client, or an instance of any other class deriving from
    [Exception], given by the name of its class.  Each carries [str(e)]. *)
Inductive raised : Type :=
| Custom (k : Exceptions.class) (msg : string)
| Builtin (e : exn)
| Other (class_name msg : string).

Definition str_raised (r : raised) : string :=
  match r with
  | Custom _ msg | Other _ msg => msg
  | Builtin e => str_exn e
  end.

Inductive attempt (A : Type) : Type :=
| Done (a : A)
| Fail (r : raised).
Arguments Done {A} a.
Arguments Fail {A} r.

Definition completes {A : Type} (t : attempt A) : bool :=
  match t with Done _ => true | Fail _ => false end.

(** ** json.dumps without a [default] hook *)

(** The document [json.dumps(value)] writes: as [encode], except that an
    object without an encoding makes the encoder raise. *)
Definition encode_plain `{Interpreter} (v : pyval) : outcome json :=
  dumps false recursion_budget v.

(** The document written for a value that sits directly in a dictionary
    handed to [json.dumps]: the dictionary has taken one nested call. *)
Definition encode_member `{Interpreter} (v : pyval) : outcome json :=
  match recursion_budget with
  | O => Raised too_deep
  | S budget => dumps false budget v
  end.

Definition json_dumps `{Interpreter} (value : pyval) : attempt text :=
  match encode_plain value with
  | Returned d => Done (Doc d)
  | Raised e => Fail (Builtin e)
  end.

(** ** shared/utils.py *)

Module Utils.
(** [type(v).__name__] *)
Definition type_name (v : pyval) : string :=
  match v with
  | PNone => "NoneType"
  | PBool _ => "bool"
  | PInt _ => "int"
  | PFloat _ => "float"
  | PStr _ => "str"
  | PList _ => "list"
  | PTuple _ => "tuple"
  | PDict _ => "dict"
  | PObject cls _ _ => cls
  end.

(** The value under a [str] key of a dictionary, if the key is there. *)
Fixpoint dict_find (name : string) (items : list (pykey * pyval)) : option pyval :=
  match items with
  | [] => None
  | (KStr n, v) :: rest => if String.eqb n name then Some v else dict_find name rest
  | _ :: rest => dict_find name rest
  end.

(** [obj.get(name, default)]: only dictionaries have the method (the
    objects that [PObject] stands for, dates, sets, decimals, do not). *)
Definition py_get (obj : pyval) (name : string) (default : pyval) : attempt pyval :=
  match obj with
  | PDict items =>
      Done (match dict_find name items with Some v => v | None => default end)
  | _ =>
      Fail (Other "AttributeError"
              ("'" +:+ type_name obj +:+ "' object has no attribute 'get'"))
  end.

Definition parse_json_body `{Interpreter} (body : option text) : attempt pyval :=
  match body with
  | None => Done (PDict [])
  | Some t =>
      if text_truthy t then
        match json_loads t with
        | Returned result => Done result
        | Raised (JSONDecodeError msg) =>
            Fail (Builtin (ValueError ("Invalid JSON in request body: " +:+ msg)))
        | Raised e => Fail (Builtin e)
        end
      else Done (PDict [])
  end.

(** The dictionary [format_response] returns. *)
Record response : Type := Response {
  statusCode : Z;
  headers : gmap string string;
  body : text
}.

(** [utcnow] is what [datetime.utcnow().isoformat()] gives at the call.
    [default_headers.update(headers)] lets the caller's entries replace
    the default ones. *)
Definition format_response `{Interpreter} (utcnow : string) (status_code : Z)
    (body : pyval) (headers : option (gmap string string)) : attempt response :=
  let default_headers : gmap string string :=
    <["Content-Type" := "application/json"]> (<["X-Timestamp" := utcnow]> ∅) in
  let default_headers :=
    match headers with
    | Some given =>
        if bool_decide (given = ∅) then default_headers
        else given ∪ default_headers
    | None => default_headers
    end in
  match json_dumps body with
  | Done serialized => Done (Response status_code default_headers serialized)
  | Fail r => Fail r
  end.

Definition get_correlation_id (event : list (pykey * pyval)) : attempt pyval :=
  match dict_find "requestContext" event with
  | Some request_context => py_get request_context "requestId" (PStr "")
  | None =>
      let headers :=
        match dict_find "headers" event with
        | Some h => h
        | None => PDict []
        end in
      match py_get headers "x-request-id" (PStr "") with
      | Done fallback => py_get headers "x-correlation-id" fallback
      | Fail r => Fail r
      end
  end.
End Utils.

(** ** functions/response-validator/src/handler.py *)

Module Handler.
Inductive loglevel : Type := Debug | Info | Warning | Error.

(** What an invocation leaves behind besides its result: log records
    (level, message, serialized payload interpolated at the end of the
    message if any, extra fields) and metrics (name, count). *)
Inductive emitted : Type :=
| Log (lv : loglevel) (msg : string) (payload : option text)
    (extra : list (string * pyval))
| Metric (metric_name : string) (value : Z).

(** A computation that emits and then returns or raises. *)
Definition emitting (A : Type) : Type := list emitted * attempt A.

Definition pure {A : Type} (a : A) : emitting A := ([], Done a).

Definition then_ {A C : Type} (m : emitting A) (k : A -> emitting C) : emitting C :=
  match m with
  | (out, Done a) => let (out', r) := k a in (out ++ out', r)
  | (out, Fail r) => (out, Fail r)
  end.

Definition emit (e : emitted) : emitting unit := ([e], Done tt).

Definition of_attempt {A : Type} (t : attempt A) : emitting A := ([], t).

Definition try_ {A : Type} (body : emitting A) (handler : raised -> emitting A) : emitting A :=
  match body with
  | (out, Done a) => (out, Done a)
  | (out, Fail r) => let (out', r') := handler r in (out ++ out', r')
  end.

(** The Lambda context object; [None] is an attribute the object does not
    have. *)
Record context : Type := Context {
  aws_request_id : option string;
  get_remaining_time_in_millis : option Z
}.

Definition validate_event (event : list (pykey * pyval)) : emitting unit :=
  match event with
  | [] => of_attempt (Fail (Custom Exceptions.ValidationError "Event cannot be empty"))
  | _ :: _ => pure tt
  end.

Definition process_event `{Interpreter} (event : list (pykey * pyval)) (ctx : context)
    : emitting pyval :=
  then_ (of_attempt (json_dumps (PDict event))) (fun dumped =>
  then_ (emit (Log Debug "Processing event: " (Some dumped) [])) (fun _ =>
  pure (PDict
          [(KStr "function", PStr "response-validator");
           (KStr "request_id",
            match aws_request_id ctx with Some r => PStr r | None => PNone end);
           (KStr "remaining_time_ms",
            match get_remaining_time_in_millis ctx with
            | Some ms => PInt ms
            | None => PNone
            end)]))).

(** The function that the [def lambda_handler] statement builds, before
    the three decorators of lines 21 to 23 are applied to it, with the
    module-level name [process_event] bound to [process] (the tests
    rebind it). *)
Definition lambda_handler_with `{Interpreter}
    (process : list (pykey * pyval) -> context -> emitting pyval)
    (utcnow : string) (event : list (pykey * pyval)) (ctx : context)
    : emitting Utils.response :=
  then_ (of_attempt (Utils.get_correlation_id event)) (fun correlation_id =>
  then_ (emit (Log Info "Processing event for response-validator" None
                 [("correlation_id", correlation_id)])) (fun _ =>
  then_ (emit (Metric "FunctionInvocation" 1)) (fun _ =>
  try_
    (then_ (validate_event event) (fun _ =>
     then_ (process event ctx) (fun result =>
     then_ (emit (Log Info "Successfully processed event" None
                    [("correlation_id", correlation_id)])) (fun _ =>
     then_ (emit (Metric "SuccessfulProcessing" 1)) (fun _ =>
     of_attempt
       (Utils.format_response utcnow 200
          (PDict [(KStr "message", PStr "Success");
                  (KStr "data", result);
                  (KStr "correlation_id", correlation_id)])
          None))))))
    (fun e =>
       let unexpected :=
         then_ (emit (Log Error ("Unexpected error: " +:+ str_raised e) None []))
           (fun _ =>
         then_ (emit (Metric "UnexpectedError" 1)) (fun _ =>
         of_attempt
           (Utils.format_response utcnow 500
              (PDict [(KStr "error", PStr "InternalServerError");
                      (KStr "message", PStr "An unexpected error occurred");
                      (KStr "correlation_id", correlation_id)])
              None))) in
       match e with
       | Custom k msg =>
           (* except ValidationError as e *)
           if Exceptions.issubclass k Exceptions.ValidationError then
             then_ (emit (Log Warning ("Validation error: " +:+ msg) None [])) (fun _ =>
             then_ (emit (Metric "ValidationError" 1)) (fun _ =>
             of_attempt
               (Utils.format_response utcnow 400
                  (PDict [(KStr "error", PStr "ValidationError");
                          (KStr "message", PStr msg);
                          (KStr "correlation_id", correlation_id)])
                  None)))
           (* except LambdaError as e *)
           else if Exceptions.issubclass k Exceptions.LambdaError then
             then_ (emit (Log Error ("Lambda error: " +:+ msg) None [])) (fun _ =>
             then_ (emit (Metric "LambdaError" 1)) (fun _ =>
             of_attempt
               (Utils.format_response utcnow 500
                  (PDict [(KStr "error", PStr (Exceptions.name k));
                          (KStr "message", PStr msg);
                          (KStr "correlation_id", correlation_id)])
                  None)))
           else unexpected
       (* except Exception as e *)
       | _ => unexpected
       end)))).

Definition lambda_handler `{Interpreter}
    : string -> list (pykey * pyval) -> context -> emitting Utils.response :=
  lambda_handler_with process_event.

(** *** The decorators

    [lambda_handler] as the module binds it is the function above under
    [logger.inject_lambda_context], [tracer.capture_lambda_handler] and
    [metrics.log_metrics].  They belong to Powertools, not to this
    repository, and are taken as given: each turns a handler into a
    handler.  They do raise by themselves: context injection reads
    [aws_request_id] and other attributes of the context and raises
    [AttributeError] for a context without them, and the metrics are
    flushed after the call, which raises when no metrics namespace is
    configured. *)
Definition handler : Type :=
  list (pykey * pyval) -> context -> emitting Utils.response.

Record powertools : Type := Powertools {
  inject_lambda_context : handler -> handler;
  capture_lambda_handler : handler -> handler;
  log_metrics : handler -> handler
}.

(** Decorators apply from the bottom up. *)
Definition decorated `{Interpreter} (pt : powertools)
    (process : list (pykey * pyval) -> context -> emitting pyval)
    (utcnow : string) : handler :=
  inject_lambda_context pt
    (capture_lambda_handler pt
       (log_metrics pt (lambda_handler_with process utcnow))).

(** A decorator passes an invocation through when the caller gets what
    the decorated function returned or raised. *)
Definition passes_through (decorator : handler -> handler)
    (event : list (pykey * pyval)) (ctx : context) : Prop :=
  forall f : handler, snd (decorator f event ctx) = snd (f event ctx).

Definition transparent (pt : powertools)
    (event : list (pykey * pyval)) (ctx : context) : Prop :=
  passes_through (inject_lambda_context pt) event ctx
  /\ passes_through (capture_lambda_handler pt) event ctx
  /\ passes_through (log_metrics pt) event ctx.

(** A context whose remaining time, if it gives one, is a machine
    integer. *)
Definition timed (ctx : context) : Prop :=
  match get_remaining_time_in_millis ctx with
  | Some ms => int64 ms
  | None => True
  end.

(** Decorators that add nothing to any invocation. *)
Definition bare : powertools := Powertools (fun f => f) (fun f => f) (fun f => f).
End Handler.

(** ** shared/config.py

    [float] is a parameter: the type of Python floats and the conversion
    [float(s)] of a text, which returns or raises [ValueError]. *)

Module Config.
Section Settings.
Variable real : Type.
Variable py_float : string -> outcome real.

Record config : Type := Build {
  environment : string;
  log_level : string;
  region : string;
  json_logging : bool;
  service_name : string;
  bedrock_model_id : string;
  bedrock_max_tokens : Z;
  bedrock_temperature : real;
  dynamodb_table : string;
  escalation_queue_url : string;
  metrics_namespace : string;
  redis_endpoint : string;
  redis_port : Z;
  redis_auth_token : string
}.

(** [os.getenv(name, default)] *)
Definition getenv (env : gmap string string) (name default : string) : string :=
  match env !! name with
  | Some v => v
  | None => default
  end.

(** [str.lower], on the letters A to Z; other characters are kept. *)
Definition lower_char (a : Ascii.ascii) : Ascii.ascii :=
  let n := Ascii.nat_of_ascii a in
  if ((65 <=? n) && (n <=? 90))%nat then Ascii.ascii_of_nat (n + 32) else a.

Fixpoint lower (s : string) : string :=
  match s with
  | EmptyString => EmptyString
  | String a rest => String (lower_char a) (lower rest)
  end.

(** [Config()]: the assignments of [__init__] in order; the three
    conversions are the statements that can raise. *)
Definition __init__ (env : gmap string string) : outcome config :=
  let environment := getenv env "ENVIRONMENT" "dev" in
  let log_level := getenv env "LOG_LEVEL" "INFO" in
  let region := getenv env "AWS_REGION" "us-east-1" in
  let json_logging := String.eqb (lower (getenv env "JSON_LOGGING" "true")) "true" in
  let service_name := getenv env "POWERTOOLS_SERVICE_NAME" "customer-service-bot" in
  let bedrock_model_id :=
    getenv env "BEDROCK_MODEL_ID" "anthropic.claude-3-5-sonnet-20241022-v2:0" in
  and_then (py_int (getenv env "BEDROCK_MAX_TOKENS" "1000")) (fun bedrock_max_tokens =>
  and_then (py_float (getenv env "BEDROCK_TEMPERATURE" "0.7"))
    (fun bedrock_temperature =>
  let dynamodb_table := getenv env "DYNAMODB_TABLE" "" in
  let escalation_queue_url := getenv env "ESCALATION_QUEUE_URL" "" in
  let metrics_namespace := getenv env "METRICS_NAMESPACE" "CustomerServiceBot" in
  let redis_endpoint := getenv env "REDIS_ENDPOINT" "" in
  and_then (py_int (getenv env "REDIS_PORT" "6379")) (fun redis_port =>
  let redis_auth_token := getenv env "REDIS_AUTH_TOKEN" "" in
  Returned
    (Build environment log_level region json_logging service_name bedrock_model_id
       bedrock_max_tokens bedrock_temperature dynamodb_table escalation_queue_url
       metrics_namespace redis_endpoint redis_port redis_auth_token)))).

(** [Config.from_env()] under [lru_cache(maxsize=1)]: [cached] is the one
    slot of the cache.  A call that raises stores nothing. *)
Definition from_env (env : gmap string string) (cached : option config)
    : outcome config * option config :=
  match cached with
  | Some c => (Returned c, cached)
  | None =>
      match __init__ env with
      | Returned c => (Returned c, Some c)
      | Raised e => (Raised e, None)
      end
  end.

Definition to_dict (c : config) : list (pykey * pyval) :=
  [(KStr "environment", PStr (environment c));
   (KStr "log_level", PStr (log_level c));
   (KStr "region", PStr (region c));
   (KStr "json_logging", PBool (json_logging c));
   (KStr "service_name", PStr (service_name c))].
End Settings.
End Config.

(** The names of the metrics among what an invocation emitted, in order. *)
Fixpoint metrics_of (out : list Handler.emitted) : list string :=
  match out with
  | [] => []
  | Handler.Metric metric_name _ :: rest => metric_name :: metrics_of rest
  | Handler.Log _ _ _ _ :: rest => metrics_of rest
  end.

(** The headers of a response formatted without headers of the caller. *)
Definition default_headers (utcnow : string) : gmap string string :=
  <["Content-Type" := "application/json"]> (<["X-Timestamp" := utcnow]> ∅).

(** The responses of [lambda_handler], by branch; [dd] and [dc] are the
    serialized result and correlation id. *)
Definition success_response (utcnow : string) (dd dc : json) : Utils.response :=
  Utils.Response 200 (default_headers utcnow)
    (Doc (JObj [("message", JStr "Success"); ("data", dd); ("correlation_id", dc)])).

Definition error_response (utcnow : string) (status : Z) (error message : string)
    (dc : json) : Utils.response :=
  Utils.Response status (default_headers utcnow)
    (Doc (JObj [("error", JStr error); ("message", JStr message);
                ("correlation_id", dc)])).

(** Successive calls of [Config.from_env()], each made in the environment
    of its time, starting from the given state of the cache. *)
Fixpoint from_env_calls (real : Type) (py_float : string -> outcome real)
    (envs : list (gmap string string)) (cached : option (Config.config real))
    : list (outcome (Config.config real)) :=
  match envs with
  | [] => []
  | env :: rest =>
      let (result, cached') := Config.from_env real py_float env cached in
      result :: from_env_calls real py_float rest cached'
  end.

(** The environment variables that [to_dict] shows. *)
Definition shown_settings : list string :=
  ["ENVIRONMENT"; "LOG_LEVEL"; "AWS_REGION"; "JSON_LOGGING";
   "POWERTOOLS_SERVICE_NAME"].

(** ** Sample inputs *)

(** A process whose environment gives a port that is not a number, in
    front of an empty server that answers. *)
Definition misconfigured : world Redis.server :=
  World (Process true (<["REDIS_PORT" := "tls"]> ∅) false None [])
    (empty_server true) [].

(** An event as API Gateway sends it, and a Lambda context. *)
Definition gateway_event : list (pykey * pyval) :=
  [(KStr "requestContext", PDict [(KStr "requestId", PStr "req-1")]);
   (KStr "body", PStr "{}")].

Definition lambda_context : Handler.context :=
  Handler.Context (Some "aws-1") (Some 3000).

(** * Properties *)

(** ** Evaluating method bodies *)

Ltac unfold_monad :=
  unfold bind, ret, lift, try_except, read, modify, call, logger, environ_get.

Ltac unfold_methods :=
  unfold RateLimiter.is_allowed, RedisCache.get, RedisCache.set,
    RedisCache.delete, RedisCache.increment, RedisCache.RedisCache,
    RedisCache.__new__, RedisCache.__init__, RedisCache._connect,
    RedisCache.redis_Redis.

(** Case analysis on the answer of the next request in the goal. *)
Ltac answer_cases :=
  match goal with
  | |- context [redis_ping ?c ?b] => destruct (redis_ping c b) as [[[]|?] ?]
  | |- context [redis_get ?c ?k ?b] => destruct (redis_get c k b) as [[[?|]|?] ?]
  | |- context [redis_setex ?c ?k ?t ?v ?b] =>
      destruct (redis_setex c k t v b) as [[[]|?] ?]
  | |- context [redis_delete ?c ?k ?b] => destruct (redis_delete c k b) as [[?|?] ?]
  | |- context [redis_incr ?c ?k ?a ?b] => destruct (redis_incr c k a b) as [[?|?] ?]
  | |- context [redis_expire ?c ?k ?t ?b] => destruct (redis_expire c k t b) as [[?|?] ?]
  end.

Section AnyBackend.
Context `{Interpreter} {B : Type} `{Backend B}.

Lemma get_returns key (w : world B) : returns (fst (RedisCache.get key w)) = true.
Proof.
  unfold_methods; unfold_monad; cbn.
  destruct (_redis_client (proc w)); [|done].
  answer_cases; cbn; try done.
  destruct (text_truthy t); [|done].
  destruct t as [d|raw]; cbn; [|done]. by destruct (scan _ d).
Qed.

Lemma set_returns key value ttl (w : world B) :
  returns (fst (RedisCache.set key value ttl w)) = true.
Proof.
  unfold_methods; unfold_monad; cbn.
  destruct (_redis_client (proc w)); [|done].
  unfold json_dumps_default_str.
  destruct (encode value); cbn; [|done].
  by answer_cases.
Qed.

Lemma delete_returns key (w : world B) :
  returns (fst (RedisCache.delete key w)) = true.
Proof.
  unfold_methods; unfold_monad; cbn.
  destruct (_redis_client (proc w)); [|done].
  by answer_cases.
Qed.

Lemma increment_returns key amount ttl (w : world B) :
  returns (fst (RedisCache.increment key amount ttl w)) = true.
Proof.
  unfold_methods; unfold_monad; cbn.
  destruct (_redis_client (proc w)); [|done].
  answer_cases; cbn; [|done].
  destruct ttl as [t|]; [|done].
  destruct (negb (t =? 0) && (a =? amount)); [|done].
  cbn. by answer_cases.
Qed.

Lemma is_allowed_returns identifier max_requests window_seconds (w : world B) :
  returns (fst (RateLimiter.is_allowed identifier max_requests window_seconds w))
  = true.
Proof.
  unfold RateLimiter.is_allowed, bind.
  pose proof (increment_returns ("ratelimit:" +:+ identifier) 1
                (Some window_seconds) w) as Hr.
  destruct (RedisCache.increment _ _ _ w) as [[[count|]|e] w1]; try done.
  cbn. by destruct (negb (count <=? max_requests)).
Qed.

Lemma connect_returns (w : world B) : returns (fst (RedisCache._connect w)) = true.
Proof.
  unfold_methods; unfold_monad; cbn.
  destruct (REDIS_AVAILABLE (proc w)); [|done]. cbn.
  destruct (py_int _); cbn; [|done].
  by answer_cases.
Qed.

Lemma init_returns (w : world B) : returns (fst (RedisCache.__init__ w)) = true.
Proof.
  unfold RedisCache.__init__, bind, read. cbn.
  destruct (REDIS_AVAILABLE (proc w)); [|done]. cbn.
  destruct (_redis_client (proc w)); [done|]. apply connect_returns.
Qed.

Lemma instantiate_returns (w : world B) :
  returns (fst (RedisCache.RedisCache w)) = true.
Proof.
  unfold RedisCache.RedisCache, RedisCache.__new__, bind, read, ret, modify. cbn.
  destruct (_instance (proc w)); apply init_returns.
Qed.
End AnyBackend.

(** ** The handle in disabled mode, and what errors leave behind *)

Section Handle.
Context `{Interpreter} {B : Type} `{Backend B}.

Lemma get_disabled key (w : world B) :
  _redis_client (proc w) = None -> RedisCache.get key w = (Returned PNone, w).
Proof. intros Hc. unfold RedisCache.get, bind, read, ret. by rewrite Hc. Qed.

Lemma set_disabled key value ttl (w : world B) :
  _redis_client (proc w) = None ->
  RedisCache.set key value ttl w = (Returned false, w).
Proof. intros Hc. unfold RedisCache.set, bind, read, ret. by rewrite Hc. Qed.

Lemma delete_disabled key (w : world B) :
  _redis_client (proc w) = None -> RedisCache.delete key w = (Returned false, w).
Proof. intros Hc. unfold RedisCache.delete, bind, read, ret. by rewrite Hc. Qed.

Lemma increment_disabled key amount ttl (w : world B) :
  _redis_client (proc w) = None ->
  RedisCache.increment key amount ttl w = (Returned None, w).
Proof. intros Hc. unfold RedisCache.increment, bind, read, ret. by rewrite Hc. Qed.

(** The limiter on a disabled handle: allowed, one warning, no request. *)
Lemma is_allowed_disabled identifier max_requests window_seconds (w : world B) :
  _redis_client (proc w) = None ->
  fst (RateLimiter.is_allowed identifier max_requests window_seconds w)
  = Returned true
  /\ _redis_client
       (proc (snd (RateLimiter.is_allowed identifier max_requests window_seconds w)))
     = None
  /\ wire (snd (RateLimiter.is_allowed identifier max_requests window_seconds w))
     = wire w.
Proof.
  intros Hc. unfold RateLimiter.is_allowed, bind.
  rewrite increment_disabled by done. by cbn.
Qed.

(** No method assigns [_redis_client]. *)
Lemma get_keeps_handle key (w : world B) :
  _redis_client (proc (snd (RedisCache.get key w))) = _redis_client (proc w).
Proof.
  unfold_methods; unfold_monad; cbn.
  destruct (_redis_client (proc w)) eqn:Hc; [|by cbn].
  answer_cases; cbn; try done.
  destruct (text_truthy t); [|done].
  destruct t as [d|raw]; cbn; [|done]. by destruct (scan _ d).
Qed.

Lemma set_keeps_handle key value ttl (w : world B) :
  _redis_client (proc (snd (RedisCache.set key value ttl w)))
  = _redis_client (proc w).
Proof.
  unfold_methods; unfold_monad; cbn.
  destruct (_redis_client (proc w)) eqn:Hc; [|by cbn].
  unfold json_dumps_default_str.
  destruct (encode value); cbn; [|done].
  by answer_cases.
Qed.

Lemma delete_keeps_handle key (w : world B) :
  _redis_client (proc (snd (RedisCache.delete key w))) = _redis_client (proc w).
Proof.
  unfold_methods; unfold_monad; cbn.
  destruct (_redis_client (proc w)) eqn:Hc; [|by cbn].
  by answer_cases.
Qed.

Lemma increment_keeps_handle key amount ttl (w : world B) :
  _redis_client (proc (snd (RedisCache.increment key amount ttl w)))
  = _redis_client (proc w).
Proof.
  unfold_methods; unfold_monad; cbn.
  destruct (_redis_client (proc w)) eqn:Hc; [|by cbn].
  answer_cases; cbn; [|done].
  destruct ttl as [t|]; [|done].
  destruct (negb (t =? 0) && (a =? amount)); [|done].
  cbn. by answer_cases.
Qed.

Lemma is_allowed_keeps_handle identifier max_requests window_seconds (w : world B) :
  _redis_client
    (proc (snd (RateLimiter.is_allowed identifier max_requests window_seconds w)))
  = _redis_client (proc w).
Proof.
  unfold RateLimiter.is_allowed, bind.
  pose proof (increment_keeps_handle ("ratelimit:" +:+ identifier) 1
                (Some window_seconds) w) as Hk.
  destruct (RedisCache.increment _ _ _ w) as [[[count|]|e] w1]; cbn in *; try done.
  by destruct (negb (count <=? max_requests)).
Qed.

Lemma perform_keeps_handle (o : operation) (w : world B) :
  _redis_client (proc (snd (perform o w))) = _redis_client (proc w).
Proof.
  destruct o as [key|key value ttl|key|key amount ttl|i n ws]; unfold perform, bind.
  - pose proof (get_keeps_handle key w).
    by destruct (RedisCache.get key w) as [[?|?] ?].
  - pose proof (set_keeps_handle key value ttl w).
    by destruct (RedisCache.set key value ttl w) as [[?|?] ?].
  - pose proof (delete_keeps_handle key w).
    by destruct (RedisCache.delete key w) as [[?|?] ?].
  - pose proof (increment_keeps_handle key amount ttl w).
    by destruct (RedisCache.increment key amount ttl w) as [[?|?] ?].
  - pose proof (is_allowed_keeps_handle i n ws w).
    by destruct (RateLimiter.is_allowed i n ws w) as [[?|?] ?].
Qed.


End Handle.

(** ** Claims that hold over every backend *)

Section Claims.
Context `{Interpreter} {B : Type} `{Backend B}.

Lemma perform_returns (o : operation) (w : world B) :
  returns (fst (perform o w)) = true.
Proof.
  destruct o as [key|key value ttl|key|key amount ttl|i n ws]; unfold perform, bind.
  - pose proof (get_returns key w).
    by destruct (RedisCache.get key w) as [[?|?] ?].
  - pose proof (set_returns key value ttl w).
    by destruct (RedisCache.set key value ttl w) as [[?|?] ?].
  - pose proof (delete_returns key w).
    by destruct (RedisCache.delete key w) as [[?|?] ?].
  - pose proof (increment_returns key amount ttl w).
    by destruct (RedisCache.increment key amount ttl w) as [[?|?] ?].
  - pose proof (is_allowed_returns i n ws w).
    by destruct (RateLimiter.is_allowed i n ws w) as [[?|?] ?].
Qed.


(** C6.  With [_redis_client] at [None] every operation returns its
    sentinel and leaves the whole world as it was: no request goes on
    the wire, the store is not touched, nothing is logged. *)
Theorem disabled_mode_is_inert (w : world B) :
  _redis_client (proc w) = None ->
  (forall key, RedisCache.get key w = (Returned PNone, w))
  /\ (forall key value ttl, RedisCache.set key value ttl w = (Returned false, w))
  /\ (forall key, RedisCache.delete key w = (Returned false, w))
  /\ (forall key amount ttl,
        RedisCache.increment key amount ttl w = (Returned None, w)).
Proof.
  intros Hc. repeat split; intros.
  - by apply get_disabled.
  - by apply set_disabled.
  - by apply delete_disabled.
  - by apply increment_disabled.
Qed.

Lemma increment_unreachable key amount ttl (w : world B) :
  (forall c k a b, returns (fst (redis_incr c k a b)) = false) ->
  fst (RedisCache.increment key amount ttl w) = Returned None.
Proof.
  intros Hdown. unfold_methods; unfold_monad; cbn.
  destruct (_redis_client (proc w)) as [c|]; [|done].
  specialize (Hdown c key amount (backend w)).
  by destruct (redis_incr c key amount (backend w)) as [[?|?] ?].
Qed.

Lemma is_allowed_without_count identifier max_requests window_seconds (w : world B) :
  fst (RedisCache.increment ("ratelimit:" +:+ identifier) 1
         (Some window_seconds) w) = Returned None ->
  fst (RateLimiter.is_allowed identifier max_requests window_seconds w)
  = Returned true.
Proof.
  intros Hnone. unfold RateLimiter.is_allowed, bind.
  by destruct (RedisCache.increment _ _ _ w) as [[[count|]|e] w1].
Qed.

Lemma run_returns (steps : list (step B)) (w : world B) :
  Forall (fun a => returns a = true) (fst (run steps w)).
Proof.
  revert w. induction steps as [|[o| |change] steps IH]; intros w; cbn.
  - constructor.
  - pose proof (perform_returns o w) as Hr.
    destruct (perform o w) as [a w1]. specialize (IH w1).
    destruct (run steps w1) as [outs w2]. by constructor.
  - unfold bind at 1. pose proof (instantiate_returns w) as Hr.
    destruct (RedisCache.RedisCache w) as [[[]|e] w1]; [|done].
    specialize (IH w1). cbn. destruct (run steps w1) as [outs w2]. by constructor.
  - apply IH.
Qed.

(** C2.  If the increment made by [is_allowed] yields [None], the call
    returns [True], whatever the identifier, the limit and the window,
    and whatever count the store holds.  In particular, over a backend
    whose increment never answers, every call of a caller that only
    consults the limiter returns [True], however many there are. *)
Theorem fail_open :
  (forall identifier max_requests window_seconds (w : world B),
     fst (RedisCache.increment ("ratelimit:" +:+ identifier) 1
            (Some window_seconds) w) = Returned None ->
     fst (RateLimiter.is_allowed identifier max_requests window_seconds w)
     = Returned true)
  /\ ((forall c key amount b, returns (fst (redis_incr c key amount b)) = false) ->
      forall (steps : list (step B)) (w : world B),
        Forall (fun s => limiter_step s = true) steps ->
        Forall (fun a => a = Returned (Flag true)) (fst (run steps w))).
Proof.
  split; [apply is_allowed_without_count|].
  intros Hdown steps w Hsteps. revert w.
  induction Hsteps as [|s steps Hs _ IH]; intros w; [constructor|].
  destruct s as [[ | | | |i n ws]| |change]; try done; cbn.
  - pose proof (is_allowed_without_count i n ws w
                  (increment_unreachable _ _ _ w Hdown)) as Hyes.
    unfold bind at 1.
    destruct (RateLimiter.is_allowed i n ws w) as [a w1]. cbn in Hyes. subst a.
    cbn. specialize (IH w1). destruct (run steps w1) as [outs w2].
    by constructor.
  - apply IH.
Qed.

(** C8.  On a connected handle, a request that raises makes the call it
    belongs to return its sentinel ([None] for [get] and [increment],
    [False] for [set] and [delete]) and leaves [_redis_client] as it was.
    For [increment] the failing request may be the increment itself or
    the expiry that follows it. *)
Theorem operation_error_is_transient (w : world B) (c : client) :
  _redis_client (proc w) = Some c ->
  (forall key,
     returns (fst (redis_get c key (backend w))) = false ->
     fst (RedisCache.get key w) = Returned PNone
     /\ _redis_client (proc (snd (RedisCache.get key w))) = Some c)
  /\ (forall key value ttl serialized,
        json_dumps_default_str value = Returned serialized ->
        returns (fst (redis_setex c key ttl serialized (backend w))) = false ->
        fst (RedisCache.set key value ttl w) = Returned false
        /\ _redis_client (proc (snd (RedisCache.set key value ttl w))) = Some c)
  /\ (forall key,
        returns (fst (redis_delete c key (backend w))) = false ->
        fst (RedisCache.delete key w) = Returned false
        /\ _redis_client (proc (snd (RedisCache.delete key w))) = Some c)
  /\ (forall key amount ttl,
        returns (fst (redis_incr c key amount (backend w))) = false ->
        fst (RedisCache.increment key amount ttl w) = Returned None
        /\ _redis_client (proc (snd (RedisCache.increment key amount ttl w)))
           = Some c)
  /\ (forall key amount ttl b1,
        redis_incr c key amount (backend w) = (Returned amount, b1) ->
        ttl <> 0 ->
        returns (fst (redis_expire c key ttl b1)) = false ->
        fst (RedisCache.increment key amount (Some ttl) w) = Returned None
        /\ _redis_client
             (proc (snd (RedisCache.increment key amount (Some ttl) w)))
           = Some c).
Proof.
  intros Hc. repeat apply conj.
  - intros key Hfail. rewrite get_keeps_handle. split; [|done].
    unfold_methods; unfold_monad; cbn. rewrite Hc.
    by destruct (redis_get c key (backend w)) as [[?|?] ?].
  - intros key value ttl serialized Hser Hfail. rewrite set_keeps_handle.
    split; [|done].
    unfold_methods; unfold_monad; cbn. rewrite Hc, Hser. cbn.
    by destruct (redis_setex c key ttl serialized (backend w)) as [[?|?] ?].
  - intros key Hfail. rewrite delete_keeps_handle. split; [|done].
    unfold_methods; unfold_monad; cbn. rewrite Hc.
    by destruct (redis_delete c key (backend w)) as [[?|?] ?].
  - intros key amount ttl Hfail. rewrite increment_keeps_handle. split; [|done].
    unfold_methods; unfold_monad; cbn. rewrite Hc.
    by destruct (redis_incr c key amount (backend w)) as [[?|?] ?].
  - intros key amount ttl b1 Hincr Httl Hfail. rewrite increment_keeps_handle.
    split; [|done].
    unfold_methods; unfold_monad; cbn. rewrite Hc, Hincr. cbn.
    rewrite Z.eqb_refl, andb_true_r.
    destruct (Z.eqb_spec ttl 0) as [|_]; [done|]. cbn.
    by destruct (redis_expire c key ttl b1) as [[?|?] ?].
Qed.
End Claims.

(** ** Reconnection *)

Section Reconnection.
Context `{Interpreter} {B : Type} `{Backend B}.

Lemma redis_Redis_pure (w : world B) :
  snd (RedisCache.redis_Redis w) = w.
Proof.
  unfold RedisCache.redis_Redis; unfold_monad; cbn.
  by destruct (py_int _).
Qed.


Lemma connect_pings (w : world B) (c : client) :
  REDIS_AVAILABLE (proc w) = true ->
  fst (RedisCache.redis_Redis w) = Returned c ->
  wire (snd (RedisCache._connect w)) = wire w ++ [PING]
  /\ _redis_client (proc (snd (RedisCache._connect w)))
     = if returns (fst (redis_ping c (backend w))) then Some c else None.
Proof.
  intros Hav Hnew.
  pose proof (redis_Redis_pure w) as Hpure.
  unfold RedisCache._connect, bind, read, try_except.
  cbv beta. rewrite Hav. cbn [negb].
  destruct (RedisCache.redis_Redis w) as [[c'|e] w'] eqn:Hr; [|done].
  cbn in Hnew, Hpure. simplify_eq.
  unfold call, logger, modify. cbn.
  by destruct (redis_ping c (backend w)) as [[[]|?] ?].
Qed.

Lemma new_keeps (w : world B) :
  fst (RedisCache.__new__ w) = Returned tt
  /\ REDIS_AVAILABLE (proc (snd (RedisCache.__new__ w))) = REDIS_AVAILABLE (proc w)
  /\ environ (proc (snd (RedisCache.__new__ w))) = environ (proc w)
  /\ _redis_client (proc (snd (RedisCache.__new__ w))) = _redis_client (proc w)
  /\ backend (snd (RedisCache.__new__ w)) = backend w
  /\ wire (snd (RedisCache.__new__ w)) = wire w.
Proof.
  unfold RedisCache.__new__, bind, read, ret, modify.
  by destruct (_instance (proc w)).
Qed.

Lemma redis_Redis_environ (w w' : world B) :
  environ (proc w') = environ (proc w) ->
  fst (RedisCache.redis_Redis w') = fst (RedisCache.redis_Redis w).
Proof.
  intros He. unfold RedisCache.redis_Redis; unfold_monad; cbn. rewrite He.
  by destruct (py_int _).
Qed.

Lemma init_connects (w : world B) :
  REDIS_AVAILABLE (proc w) = true ->
  _redis_client (proc w) = None ->
  RedisCache.__init__ w = RedisCache._connect w.
Proof.
  intros Hav Hc. unfold RedisCache.__init__, bind, read.
  cbv beta. rewrite Hav. cbn [negb]. cbv beta. by rewrite Hc.
Qed.

Lemma instantiate_connects (w : world B) (c : client) :
  REDIS_AVAILABLE (proc w) = true ->
  _redis_client (proc w) = None ->
  fst (RedisCache.redis_Redis w) = Returned c ->
  wire (instantiated w) = wire w ++ [PING]
  /\ _redis_client (proc (instantiated w))
     = if returns (fst (redis_ping c (backend w))) then Some c else None.
Proof.
  intros Hav Hc Hnew.
  destruct (new_keeps w) as (Hr & Hav' & Henv & Hc' & Hb & Hw).
  unfold instantiated, RedisCache.RedisCache, bind. cbv beta.
  destruct (RedisCache.__new__ w) as [[[]|e] w1]; cbn [fst snd] in *; [|done].
  rewrite init_connects by congruence.
  rewrite <- Hb, <- Hw. apply connect_pings; [congruence|].
  by rewrite (redis_Redis_environ w w1).
Qed.


End Reconnection.

(** ** The limiter in front of the reference server *)

Section OnRedis.
Context `{Interpreter}.
Implicit Types (w : world Redis.server) (s : Redis.server) (c : client).

Lemma live_inserted key e s :
  Redis.live key (Redis.with_store (<[key := e]> (Redis.store s)) s)
  = if Redis.expired (Redis.now s) e then None else Some e.
Proof. unfold Redis.live. cbn. by rewrite lookup_insert_eq. Qed.

Lemma live_not_expired key e s :
  Redis.live key s = Some e -> Redis.expired (Redis.now s) e = false.
Proof.
  unfold Redis.live. destruct (Redis.store s !! key) as [e'|]; [|done].
  destruct (Redis.expired (Redis.now s) e') eqn:He; [done|]. congruence.
Qed.

Lemma increment_existing w c key amount ttl n dl :
  counting w c key n dl ->
  match ttl with Some t => t = 0 \/ n + amount <> amount | None => True end ->
  RedisCache.increment key amount ttl w
  = (Returned (Some (n + amount)),
     World (proc w)
       (Redis.with_store
          (<[key := Redis.Entry (Doc (JInt (n + amount))) dl]>
             (Redis.store (backend w))) (backend w))
       (wire w ++ [INCRBY key amount])).
Proof.
  intros (Hc & Hon & Hlive) Hguard.
  unfold RedisCache.increment, bind, read, try_except, call, ret. cbv beta.
  cbn [fst snd]. rewrite Hc. cbn [redis_incr Redis.is_backend].
  unfold Redis.incrby. rewrite Hon, Hlive. cbn.
  destruct ttl as [t|]; [|done].
  destruct Hguard as [->|Hne]; [done|].
  destruct (Z.eqb_spec (n + amount) amount); [done|].
  by rewrite andb_false_r.
Qed.

Lemma increment_fresh w c key amount ttl :
  _redis_client (proc w) = Some c ->
  Redis.online (backend w) = true ->
  Redis.live key (backend w) = None ->
  RedisCache.increment key amount ttl w
  = (Returned (Some amount),
     match ttl with
     | Some t =>
         if t =? 0 then
           World (proc w)
             (Redis.with_store
                (<[key := Redis.Entry (Doc (JInt amount)) None]>
                   (Redis.store (backend w))) (backend w))
             (wire w ++ [INCRBY key amount])
         else if t <=? 0 then
           World (proc w)
             (Redis.with_store (base.delete key (Redis.store (backend w)))
                (backend w))
             (wire w ++ [INCRBY key amount; EXPIRE key t])
         else
           World (proc w)
             (Redis.with_store
                (<[key := Redis.Entry (Doc (JInt amount))
                             (Some (Redis.now (backend w) + t))]>
                   (Redis.store (backend w))) (backend w))
             (wire w ++ [INCRBY key amount; EXPIRE key t])
     | None =>
         World (proc w)
           (Redis.with_store
              (<[key := Redis.Entry (Doc (JInt amount)) None]>
                 (Redis.store (backend w))) (backend w))
           (wire w ++ [INCRBY key amount])
     end).
Proof.
  intros Hc Hon Hlive.
  unfold RedisCache.increment, bind, read, try_except, call, ret. cbv beta.
  cbn [fst snd]. rewrite Hc. cbn [redis_incr Redis.is_backend].
  unfold Redis.incrby. rewrite Hon, Hlive. cbn.
  destruct ttl as [t|]; [|done].
  rewrite Z.eqb_refl, andb_true_r.
  destruct (Z.eqb_spec t 0) as [->|Hne]; [done|]. cbn.
  unfold Redis.expire. cbn. rewrite Hon, live_inserted. cbn.
  rewrite <- app_assoc. cbn.
  destruct (t <=? 0).
  - by rewrite delete_insert_eq.
  - by rewrite insert_insert_eq.
Qed.

Lemma is_allowed_from_increment w identifier max_requests window_seconds n w1 :
  RedisCache.increment ("ratelimit:" +:+ identifier) 1 (Some window_seconds) w
  = (Returned (Some n), w1) ->
  fst (RateLimiter.is_allowed identifier max_requests window_seconds w)
  = Returned (n <=? max_requests)
  /\ _redis_client
       (proc (snd (RateLimiter.is_allowed identifier max_requests window_seconds w)))
     = _redis_client (proc w1)
  /\ backend (snd (RateLimiter.is_allowed identifier max_requests window_seconds w))
     = backend w1
  /\ wire (snd (RateLimiter.is_allowed identifier max_requests window_seconds w))
     = wire w1.
Proof.
  intros Hincr. unfold RateLimiter.is_allowed, bind. cbv beta. rewrite Hincr.
  by destruct (n <=? max_requests).
Qed.

Lemma is_allowed_counts w c identifier max_requests window_seconds n dl :
  counting w c ("ratelimit:" +:+ identifier) n dl ->
  window_seconds = 0 \/ n <> 0 ->
  fst (perform (Op_is_allowed identifier max_requests window_seconds) w)
  = Returned (Flag (n + 1 <=? max_requests))
  /\ counting (snd (perform (Op_is_allowed identifier max_requests window_seconds) w))
       c ("ratelimit:" +:+ identifier) (n + 1) dl
  /\ Redis.now (backend (snd (perform (Op_is_allowed identifier max_requests
                                         window_seconds) w)))
     = Redis.now (backend w).
Proof.
  intros Hcount Hguard.
  pose proof Hcount as (Hc & Hon & Hlive).
  pose proof (increment_existing w c _ 1 (Some window_seconds) n dl Hcount) as Hincr.
  destruct (is_allowed_from_increment w identifier max_requests window_seconds
              (n + 1) _ (Hincr ltac:(cbn; lia))) as (Ha & Hc' & Hb & _).
  unfold perform, bind. cbv beta.
  destruct (RateLimiter.is_allowed _ _ _ w) as [a w2]. cbn [fst snd] in *.
  subst a. unfold ret. cbn [fst snd]. unfold counting.
  rewrite Hc', Hb. cbn [proc backend].
  rewrite live_inserted. cbn.
  pose proof (live_not_expired _ _ _ Hlive) as Hexp. unfold Redis.expired in *.
  cbn in *. by rewrite Hexp.
Qed.

Lemma is_allowed_creates w c identifier max_requests window_seconds :
  _redis_client (proc w) = Some c ->
  Redis.online (backend w) = true ->
  Redis.live ("ratelimit:" +:+ identifier) (backend w) = None ->
  0 <= window_seconds ->
  fst (perform (Op_is_allowed identifier max_requests window_seconds) w)
  = Returned (Flag (1 <=? max_requests))
  /\ counting (snd (perform (Op_is_allowed identifier max_requests window_seconds) w))
       c ("ratelimit:" +:+ identifier) 1
       (if window_seconds =? 0 then None
        else Some (Redis.now (backend w) + window_seconds))
  /\ Redis.now (backend (snd (perform (Op_is_allowed identifier max_requests
                                         window_seconds) w)))
     = Redis.now (backend w).
Proof.
  intros Hc Hon Hlive Hpos.
  pose proof (increment_fresh w c _ 1 (Some window_seconds) Hc Hon Hlive) as Hincr.
  destruct (is_allowed_from_increment w identifier max_requests window_seconds
              1 _ Hincr) as (Ha & Hc' & Hb & _).
  unfold perform, bind. cbv beta.
  destruct (RateLimiter.is_allowed _ _ _ w) as [a w2]. cbn [fst snd] in *.
  subst a. unfold ret. cbn [fst snd]. unfold counting. rewrite Hc', Hb.
  destruct (Z.eqb_spec window_seconds 0) as [->|Hne]; cbn [proc backend].
  - rewrite live_inserted. by cbn.
  - destruct (Z.leb_spec window_seconds 0); [lia|]. cbn [proc backend].
    rewrite live_inserted. cbn.
    destruct (Z.leb_spec (Redis.now (backend w) + window_seconds)
                (Redis.now (backend w))); [lia|done].
Qed.

Lemma tick_counting w c key n dl d :
  counting w c key n dl ->
  0 <= d ->
  (forall D, dl = Some D -> Redis.now (backend w) + d < D) ->
  counting (environment (Redis.tick d) w) c key n dl.
Proof.
  intros (Hc & Hon & Hlive) Hd Hin. unfold counting. cbn. repeat split; try done.
  unfold Redis.live in *. cbn.
  destruct (Redis.store (backend w) !! key) as [e|]; [|done].
  destruct (Redis.expired (Redis.now (backend w)) e) eqn:He; [done|].
  simplify_eq. unfold Redis.expired. cbn.
  destruct dl as [D|]; [|done].
  specialize (Hin D eq_refl). by destruct (Z.leb_spec D (Redis.now (backend w) + d)); [lia|].
Qed.

Lemma run_counting c identifier max_requests window_seconds dl gaps :
  forall w n,
    counting w c ("ratelimit:" +:+ identifier) n dl ->
    window_seconds = 0 \/ 0 < n ->
    Forall (fun d => 0 <= d) gaps ->
    (forall D, dl = Some D -> Redis.now (backend w) + elapsed gaps < D) ->
    fst (run (flat_map (fun d => [Env (Redis.tick d);
                                  Do (Op_is_allowed identifier max_requests
                                        window_seconds)]) gaps) w)
    = verdicts n max_requests (length gaps)
    /\ counting
         (snd (run (flat_map (fun d => [Env (Redis.tick d);
                                        Do (Op_is_allowed identifier max_requests
                                              window_seconds)]) gaps) w))
         c ("ratelimit:" +:+ identifier) (n + Z.of_nat (length gaps)) dl.
Proof.
  induction gaps as [|d gaps IH]; intros w n Hcount Hguard Hpos Hin.
  - cbn. by rewrite Z.add_0_r.
  - apply Forall_cons in Hpos as [Hd Hpos]. cbn [elapsed foldr] in Hin.
    fold (elapsed gaps) in Hin.
    assert (0 <= elapsed gaps) as Hel.
    { clear -Hpos. induction Hpos; cbn; [done|]. fold (elapsed l). lia. }
    cbn [flat_map app run length verdicts].
    pose proof (tick_counting w c _ n dl d Hcount Hd
                  ltac:(intros D HD; specialize (Hin D HD); lia)) as Hcount1.
    destruct (is_allowed_counts (environment (Redis.tick d) w) c identifier
                max_requests window_seconds n dl Hcount1 ltac:(lia))
      as (Ha & Hcount2 & Hnow).
    destruct (perform _ (environment (Redis.tick d) w)) as [a w1].
    cbn [fst snd] in *. subst a.
    destruct (IH w1 (n + 1) Hcount2 ltac:(lia) Hpos) as [IHa IHc].
    { intros D HD. specialize (Hin D HD). rewrite Hnow. cbn. lia. }
    destruct (run _ w1) as [outs w2]. cbn [fst snd] in *. subst outs.
    split; [done|].
    by replace (n + Z.of_nat (S (length gaps))) with (n + 1 + Z.of_nat (length gaps)) by lia.
Qed.

Lemma verdicts_within n limit k :
  n + Z.of_nat k <= limit ->
  verdicts n limit k = replicate k (Returned (Flag true)).
Proof.
  revert n. induction k as [|k IH]; intros n Hle; [done|].
  cbn [verdicts replicate]. rewrite IH by lia.
  by destruct (Z.leb_spec (n + 1) limit); [|lia].
Qed.

Lemma verdicts_snoc n limit k :
  verdicts n limit (S k)
  = verdicts n limit k ++ [Returned (Flag (n + Z.of_nat k + 1 <=? limit))].
Proof.
  revert n. induction k as [|k IH]; intros n.
  - cbn. by rewrite Z.add_0_r.
  - change (verdicts n limit (S (S k)))
      with (Returned (Flag (n + 1 <=? limit)) :: verdicts (n + 1) limit (S k)).
    rewrite IH. cbn [verdicts app].
    by replace (n + 1 + Z.of_nat k + 1) with (n + Z.of_nat (S k) + 1) by lia.
Qed.

Lemma verdicts_lookup n limit k j :
  (j < k)%nat ->
  verdicts n limit k !! j = Some (Returned (Flag (n + Z.of_nat j + 1 <=? limit))).
Proof.
  revert n j. induction k as [|k IH]; intros n j Hj; [lia|].
  destruct j as [|j]; cbn.
  - by rewrite Z.add_0_r.
  - rewrite IH by lia.
    by replace (n + 1 + Z.of_nat j + 1) with (n + Z.pos (Pos.of_succ_nat j) + 1) by lia.
Qed.

(** A first [RedisCache()] in front of a reachable server, with the
    library present and a well-formed port, leaves a connected handle. *)
Lemma instantiate_on_reachable w c :
  REDIS_AVAILABLE (proc w) = true ->
  _redis_client (proc w) = None ->
  fst (RedisCache.redis_Redis w) = Returned c ->
  Redis.online (backend w) = true ->
  _redis_client (proc (instantiated w)) = Some c.
Proof.
  intros Hav Hc Hnew Hon.
  destruct (instantiate_connects w c Hav Hc Hnew) as [_ ->].
  cbn. unfold Redis.ping. by rewrite Hon.
Qed.

Lemma elapsed_nonneg gaps : Forall (fun d => 0 <= d) gaps -> 0 <= elapsed gaps.
Proof. induction 1 as [|d gaps Hd _ IH]; cbn; [done|]. fold (elapsed gaps). lia. Qed.

(** C1.  A connected handle, a reachable server, no counter yet for the
    identifier, a limit [max_requests >= 1] and a window
    [window_seconds > 0].  Of [max_requests + 1] calls to [is_allowed]
    that all fall within the window opened by the first (the pauses
    between them add up to less than [window_seconds]), the first
    [max_requests] return [True] and the last returns [False]. *)
Theorem limit_reached_within_window w c identifier max_requests window_seconds gaps :
  1 <= max_requests ->
  0 < window_seconds ->
  _redis_client (proc w) = Some c ->
  Redis.online (backend w) = true ->
  Redis.live ("ratelimit:" +:+ identifier) (backend w) = None ->
  Z.of_nat (length gaps) = max_requests ->
  Forall (fun d => 0 <= d) gaps ->
  elapsed gaps < window_seconds ->
  fst (run (paced (Op_is_allowed identifier max_requests window_seconds) gaps) w)
  = replicate (length gaps) (Returned (Flag true)) ++ [Returned (Flag false)].
Proof.
  intros Hlimit Hwindow Hc Hon Hfresh Hlen Hpos Hin.
  unfold paced. cbn [run].
  destruct (is_allowed_creates w c identifier max_requests window_seconds
              Hc Hon Hfresh ltac:(lia)) as (Ha & Hcount & Hnow).
  destruct (perform _ w) as [a w1]. cbn [fst snd] in *. subst a.
  destruct (Z.eqb_spec window_seconds 0) as [|_]; [lia|].
  destruct (run_counting c identifier max_requests window_seconds _ gaps w1 1
              Hcount ltac:(lia) Hpos) as [Hv _].
  { intros D [= <-]. rewrite Hnow. lia. }
  destruct (run _ w1) as [outs w2]. cbn [fst snd] in *. subst outs.
  destruct (length gaps) as [|k] eqn:Hk; [lia|].
  rewrite verdicts_snoc, verdicts_within by lia.
  destruct (Z.leb_spec 1 max_requests); [|lia].
  destruct (Z.leb_spec (1 + Z.of_nat k + 1) max_requests); [lia|].
  done.
Qed.

Lemma increment_without_ttl_sends {B : Type} `{Backend B} (w : world B)
    key amount ttl :
  ttl = None \/ ttl = Some 0 ->
  wire (snd (RedisCache.increment key amount ttl w))
  = wire w ++ match _redis_client (proc w) with
              | Some _ => [INCRBY key amount]
              | None => []
              end.
Proof.
  intros Httl.
  unfold RedisCache.increment, bind, read, try_except, call, ret, logger, modify.
  cbv beta. cbn [fst snd].
  destruct (_redis_client (proc w)) as [c|]; [|by rewrite app_nil_r].
  destruct (redis_incr c key amount (backend w)) as [[v|e] b1]; [|done].
  by destruct Httl as [->| ->].
Qed.

(** C9.  With [ttl] at [None] or [0], [increment] sends the increment
    and nothing else over any backend, so no expiry is ever requested;
    on the reference server the counter it creates has no deadline.
    Hence with [window_seconds = 0] the counter of an identifier is
    created without a deadline, and however long the pauses between
    calls, call number [j + 1] sees the count [j + 1] and is allowed
    exactly when [j + 1 <= max_requests]: the count only grows and the
    window never starts over. *)
Theorem zero_ttl_never_expires :
  (forall (B : Type) (HB : Backend B) (w : world B) key amount ttl,
     ttl = None \/ ttl = Some 0 ->
     wire (snd (RedisCache.increment key amount ttl w))
     = wire w ++ match _redis_client (proc w) with
                 | Some _ => [INCRBY key amount]
                 | None => []
                 end)
  /\ (forall w c key amount ttl,
        ttl = None \/ ttl = Some 0 ->
        _redis_client (proc w) = Some c ->
        Redis.online (backend w) = true ->
        Redis.live key (backend w) = None ->
        Redis.live key (backend (snd (RedisCache.increment key amount ttl w)))
        = Some (Redis.Entry (Doc (JInt amount)) None))
  /\ (forall w c identifier max_requests gaps,
        _redis_client (proc w) = Some c ->
        Redis.online (backend w) = true ->
        Redis.live ("ratelimit:" +:+ identifier) (backend w) = None ->
        Forall (fun d => 0 <= d) gaps ->
        (forall j : nat,
           (j <= length gaps)%nat ->
           fst (run (paced (Op_is_allowed identifier max_requests 0) gaps) w) !! j
           = Some (Returned (Flag (Z.of_nat j + 1 <=? max_requests))))
        /\ Redis.live ("ratelimit:" +:+ identifier)
             (backend (snd (run (paced (Op_is_allowed identifier max_requests 0)
                                   gaps) w)))
           = Some (Redis.Entry (Doc (JInt (1 + Z.of_nat (length gaps)))) None)).
Proof.
  repeat apply conj.
  - intros B HB w key amount ttl Httl. by apply increment_without_ttl_sends.
  - intros w c key amount ttl Httl Hc Hon Hfresh.
    rewrite (increment_fresh w c key amount ttl Hc Hon Hfresh).
    destruct Httl as [-> | ->]; cbn [snd backend Z.eqb]; by rewrite live_inserted.
  - intros w c identifier max_requests gaps Hc Hon Hfresh Hpos.
    unfold paced. cbn [run].
    destruct (is_allowed_creates w c identifier max_requests 0
                Hc Hon Hfresh ltac:(lia)) as (Ha & Hcount & Hnow).
    destruct (perform _ w) as [a w1]. cbn [fst snd] in *. subst a.
    cbn [Z.eqb] in Hcount.
    destruct (run_counting c identifier max_requests 0 None gaps w1 1
                Hcount ltac:(lia) Hpos ltac:(done)) as [Hv (_ & _ & Hlive)].
    destruct (run _ w1) as [outs w2]. cbn [fst snd] in *. subst outs.
    split; [|done].
    intros [|j] Hj; [done|].
    cbn [lookup list_lookup]. rewrite verdicts_lookup by lia.
    by replace (1 + Z.of_nat j + 1) with (Z.of_nat (S j) + 1) by lia.
Qed.
End OnRedis.

(** ** Serialization *)

Section Serialization.
Context `{Interpreter}.


Lemma pyval_induction (P : pyval -> Prop) :
  P PNone ->
  (forall b, P (PBool b)) ->
  (forall n, P (PInt n)) ->
  (forall repr, P (PFloat repr)) ->
  (forall s, P (PStr s)) ->
  (forall vs, Forall P vs -> P (PList vs)) ->
  (forall vs, Forall P vs -> P (PTuple vs)) ->
  (forall items, Forall (fun kv => P (snd kv)) items -> P (PDict items)) ->
  (forall cls levels shown, P (PObject cls levels shown)) ->
  forall v, P v.
Proof.
  intros HNone HBool HInt HFloat HStr HList HTuple HDict HObject.
  fix IH 1. intros [ |b|n|repr|s|vs|vs|items|cls levels shown].
  - apply HNone.
  - apply HBool.
  - apply HInt.
  - apply HFloat.
  - apply HStr.
  - apply HList. induction vs as [|x vs IHvs]; constructor; [apply IH|apply IHvs].
  - apply HTuple. induction vs as [|x vs IHvs]; constructor; [apply IH|apply IHvs].
  - apply HDict.
    induction items as [|[k x] items IHitems]; constructor; [apply IH|apply IHitems].
  - apply HObject.
Qed.

Lemma sequence_map {A C : Type} (f : A -> outcome C) (P : A -> C -> Prop) (l : list A) :
  Forall (fun x => exists y, f x = Returned y /\ P x y) l ->
  exists ys, sequence (map f l) = Returned ys /\ Forall2 P l ys.
Proof.
  induction 1 as [|x l (y & Hy & HP) _ (ys & Hys & HPs)]; cbn.
  - by exists [].
  - rewrite Hy, Hys. exists (y :: ys). split; [done|by constructor].
Qed.

Lemma sequence_returned {A C : Type} (f : A -> outcome C) (l : list A) (ys : list C) :
  sequence (map f l) = Returned ys -> Forall2 (fun x y => f x = Returned y) l ys.
Proof.
  revert ys. induction l as [|x l IH]; cbn; intros ys.
  - intros [= <-]. constructor.
  - destruct (f x) as [y|e] eqn:Hy; [|done].
    destruct (sequence (map f l)) as [ys'|e]; [|done].
    intros [= <-]. constructor; [done|by apply IH].
Qed.

Lemma dict_setitem_new name v d :
  existsb (String.eqb name) (map fst d) = false ->
  dict_setitem name v d = d ++ [(name, v)].
Proof.
  induction d as [|[name' v'] d IH]; cbn; [done|].
  intros [Hne Hrest]%orb_false_elim. rewrite Hne. by rewrite IH.
Qed.

Lemma dict_of_pairs_distinct pairs :
  distinct (map fst pairs) = true -> dict_of_pairs pairs = pairs.
Proof.
  unfold dict_of_pairs.
  enough (forall acc,
            distinct (map fst pairs) = true ->
            Forall (fun p => existsb (String.eqb (fst p)) (map fst acc) = false) pairs ->
            fold_left (fun d p => dict_setitem (fst p) (snd p) d) pairs acc
            = acc ++ pairs) as Hgen.
  { intros Hd. apply (Hgen [] Hd). by apply Forall_forall. }
  induction pairs as [|[name v] pairs IH]; intros acc Hd Hacc; cbn.
  - by rewrite app_nil_r.
  - cbn in Hd. apply andb_true_iff in Hd as [Hhead Hd].
    apply negb_true_iff in Hhead.
    apply Forall_cons in Hacc as [Hname Hacc]. cbn in Hname.
    rewrite dict_setitem_new by done.
    rewrite IH; [by rewrite <- app_assoc|done|].
    clear IH Hd. induction pairs as [|[name' v'] pairs IH]; [done|].
    cbn in Hhead. apply orb_false_elim in Hhead as [Hne Hhead].
    apply Forall_cons in Hacc as [Hname' Hacc]. constructor; [|by apply IH].
    cbn in *. rewrite map_app, existsb_app, Hname'. cbn.
    rewrite orb_false_r. rewrite String.eqb_sym. done.
Qed.

Lemma returns_sequence {A : Type} (l : list (outcome A)) :
  returns (sequence l) = forallb returns l.
Proof.
  induction l as [|[a|e] l IH]; cbn; try done.
  rewrite <- IH. by destruct (sequence l).
Qed.

Lemma forallb_Forall_ext {A : Type} (f g : A -> bool) (l : list A) :
  Forall (fun x => f x = g x) l -> forallb f l = forallb g l.
Proof. induction 1; cbn; congruence. Qed.

Lemma forallb_fmap {A C : Type} (f : C -> bool) (g : A -> C) (l : list A) :
  forallb f (map g l) = forallb (fun x => f (g x)) l.
Proof. induction l; cbn; congruence. Qed.

Lemma forallb_andb {A : Type} (f g : A -> bool) (l : list A) :
  forallb (fun x => f x && g x) l = forallb f l && forallb g l.
Proof.
  induction l as [|x l IH]; cbn; [done|]. rewrite IH.
  destruct (f x), (g x), (forallb f l); done.
Qed.

Lemma forallb_list_max {A : Type} (h : A -> nat) (b : nat) (l : list A) :
  forallb (fun x => (h x <=? b)%nat) l = (list_max (map h l) <=? b)%nat.
Proof.
  induction l as [|x l IH]; [done|]. cbn [forallb map].
  change (list_max (h x :: map h l)) with (Nat.max (h x) (list_max (map h l))).
  rewrite IH.
  destruct (Nat.leb_spec (h x) b), (Nat.leb_spec (list_max (map h l)) b),
    (Nat.leb_spec (Nat.max (h x) (list_max (map h l))) b); try done; lia.
Qed.

Lemma returns_key_name k : returns (key_name k) = key_supported k && key_fits k.
Proof. destruct k as [ |[]|n| | | ]; cbn; try done. by destruct (int_fits n). Qed.

(** When the encoder with [default=str] returns. *)
Lemma dumps_returns v :
  forall budget,
    returns (dumps true budget v)
    = keys_supported v && ints_fit v && printable v && (depth v <=? budget)%nat.
Proof.
  induction v as [ |b|n|repr|s|vs IH|vs IH|items IH|cls levels shown]
    using pyval_induction; intros budget;
    cbn [dumps keys_supported ints_fit printable depth andb]; try done.
  - by destruct (int_fits n).
  - destruct budget as [|budget]; [by rewrite andb_false_r|].
    transitivity (returns (sequence (map (dumps true budget) vs))).
    { by destruct (sequence (map (dumps true budget) vs)). }
    rewrite returns_sequence, forallb_fmap.
    rewrite (forallb_Forall_ext _
               (fun x => keys_supported x && ints_fit x && printable x
                         && (depth x <=? budget)%nat)).
    + rewrite !forallb_andb, forallb_list_max. done.
    + eapply Forall_impl; [exact IH|]. intros x Hx. apply Hx.
  - destruct budget as [|budget]; [by rewrite andb_false_r|].
    transitivity (returns (sequence (map (dumps true budget) vs))).
    { by destruct (sequence (map (dumps true budget) vs)). }
    rewrite returns_sequence, forallb_fmap.
    rewrite (forallb_Forall_ext _
               (fun x => keys_supported x && ints_fit x && printable x
                         && (depth x <=? budget)%nat)).
    + rewrite !forallb_andb, forallb_list_max. done.
    + eapply Forall_impl; [exact IH|]. intros x Hx. apply Hx.
  - destruct budget as [|budget]; [by rewrite andb_false_r|].
    match goal with |- returns (and_then ?o _) = _ =>
      transitivity (returns o); [by destruct o|] end.
    rewrite returns_sequence, forallb_fmap.
    rewrite (forallb_Forall_ext _
               (fun kv => key_supported (fst kv) && keys_supported (snd kv)
                          && (key_fits (fst kv) && ints_fit (snd kv))
                          && printable (snd kv)
                          && (depth (snd kv) <=? budget)%nat)).
    + rewrite !forallb_andb, (forallb_list_max (fun kv => depth (snd kv))). done.
    + eapply Forall_impl; [exact IH|]. intros [k x] Hx. cbn [fst snd] in *.
      transitivity (returns (key_name k) && returns (dumps true budget x)).
      { destruct (key_name k); cbn; [by destruct (dumps true budget x)|done]. }
      rewrite returns_key_name, (Hx budget).
      destruct (key_supported k), (key_fits k), (keys_supported x), (ints_fit x),
        (printable x); done.
  - unfold dumps_object.
    destruct (Nat.ltb_spec budget levels), (Nat.leb_spec levels budget);
      try lia; cbn; [by rewrite andb_false_r|].
    rewrite andb_true_r. by destruct shown.
Qed.

Lemma scan_all (budget : nat) (js : list json) :
  Forall (fun j => scan budget j = Returned tt) js ->
  exists us, sequence (map (scan budget) js) = Returned us.
Proof.
  induction 1 as [|j js Hj _ [us Hus]]; cbn; [by eexists|].
  rewrite Hj, Hus. by eexists.
Qed.

(** What the encoder with [default=str] writes reads back as the coerced
    value, and the scanner gets through it with the same budget. *)
Lemma dumps_coerced v :
  forall budget d,
    dumps true budget v = Returned d ->
    decode d = coerced v /\ scan budget d = Returned tt.
Proof.
  induction v as [ |b|n|repr|s|vs IH|vs IH|items IH|cls levels shown]
    using pyval_induction; intros budget d; cbn [dumps coerced].
  - by intros [= <-].
  - by intros [= <-].
  - destruct (int_fits n) eqn:Hn; [|done]. intros [= <-]. cbn. by rewrite Hn.
  - by intros [= <-].
  - by intros [= <-].
  - destruct budget as [|budget]; [done|].
    destruct (sequence (map (dumps true budget) vs)) as [js|e] eqn:Hjs; [|done].
    cbn. intros [= <-]. apply sequence_returned in Hjs.
    assert (map decode js = map coerced vs
            /\ Forall (fun j => scan budget j = Returned tt) js) as [Hdec Hscan].
    { induction Hjs as [|x j vs js Hxj _ IHjs]; [done|].
      apply Forall_cons in IH as [Hx IH].
      destruct (Hx budget j Hxj) as [Hd Hs]. destruct (IHjs IH) as [Hds Hss].
      split; [cbn; congruence|by constructor]. }
    cbn [decode scan]. rewrite Hdec. split; [done|].
    destruct (scan_all budget js Hscan) as [us ->]. done.
  - destruct budget as [|budget]; [done|].
    destruct (sequence (map (dumps true budget) vs)) as [js|e] eqn:Hjs; [|done].
    cbn. intros [= <-]. apply sequence_returned in Hjs.
    assert (map decode js = map coerced vs
            /\ Forall (fun j => scan budget j = Returned tt) js) as [Hdec Hscan].
    { induction Hjs as [|x j vs js Hxj _ IHjs]; [done|].
      apply Forall_cons in IH as [Hx IH].
      destruct (Hx budget j Hxj) as [Hd Hs]. destruct (IHjs IH) as [Hds Hss].
      split; [cbn; congruence|by constructor]. }
    cbn [decode scan]. rewrite Hdec. split; [done|].
    destruct (scan_all budget js Hscan) as [us ->]. done.
  - destruct budget as [|budget]; [done|].
    match goal with |- and_then ?o _ = _ -> _ => destruct o as [ms|e] eqn:Hms end;
      [|done].
    cbn. intros [= <-]. apply sequence_returned in Hms.
    assert (map (fun m => (fst m, decode (snd m))) ms
            = map (fun kv => (match key_name (fst kv) with
                              | Returned name => name
                              | Raised _ => ""
                              end, coerced (snd kv))) items
            /\ Forall (fun j => scan budget j = Returned tt) (map snd ms))
      as [Hdec Hscan].
    { induction Hms as [|[k x] [name j] items ms Hxj _ IHms]; [done|].
      apply Forall_cons in IH as [Hx IH]. cbn [fst snd] in *.
      destruct (key_name k) as [name'|] eqn:Hk; [|done]. cbn in Hxj.
      destruct (dumps true budget x) as [j'|] eqn:Hj; [|done].
      cbn in Hxj. injection Hxj as <- <-.
      destruct (Hx budget j' Hj) as [Hd Hs]. destruct (IHms IH) as [Hds Hss].
      split; [cbn; rewrite Hk; congruence|by constructor]. }
    cbn [decode scan]. rewrite Hdec. split; [done|].
    destruct (scan_all budget (map snd ms) Hscan) as [us Hus].
    rewrite map_map in Hus. by rewrite Hus.
  - unfold dumps_object. destruct (budget <? levels)%nat; [done|].
    destruct shown as [s|e]; [|done]. by intros [= <-].
Qed.

Lemma native_serializable v :
  json_native v = true ->
  keys_supported v = true /\ ints_fit v = true /\ printable v = true
  /\ coerced v = v.
Proof.
  induction v as [ |b|n|repr|s|vs IH|vs IH|items IH|cls levels shown]
    using pyval_induction;
    cbn [json_native keys_supported ints_fit printable coerced]; try done.
  - intros Hnat. rewrite forallb_forall in Hnat.
    assert (Forall (fun x => keys_supported x = true /\ ints_fit x = true
                             /\ printable x = true /\ coerced x = x) vs) as Hall.
    { rewrite Forall_forall in IH |- *. intros x Hx. apply IH; [done|].
      apply Hnat. by apply list_elem_of_In. }
    clear IH Hnat. induction Hall as [|x vs (? & ? & ? & ?) _ (? & ? & ? & Hvs)]; [done|].
    cbn. repeat apply conj; try by apply andb_true_iff.
    injection Hvs as Hvs. congruence.
  - intros [Hall Hdist]%andb_true_iff. rewrite forallb_forall in Hall.
    assert (Forall (fun kv => is_str_key (fst kv) = true
                              /\ keys_supported (snd kv) = true
                              /\ ints_fit (snd kv) = true
                              /\ printable (snd kv) = true
                              /\ coerced (snd kv) = snd kv) items) as Hitems.
    { rewrite Forall_forall in IH |- *. intros kv Hkv.
      specialize (Hall kv ltac:(by apply list_elem_of_In)).
      apply andb_true_iff in Hall as [Hk Hx]. split; [done|]. by apply IH. }
    clear IH Hall.
    assert (map (fun kv => (match key_name (fst kv) with
                            | Returned name => name
                            | Raised _ => ""
                            end, coerced (snd kv))) items
            = map (fun kv => (key_text (fst kv), snd kv)) items) as ->.
    { clear Hdist. induction Hitems as [|[k x] items (Hk & _ & _ & _ & Hx) _ IHi];
        [done|]. cbn in *. destruct k; try done. cbn. congruence. }
    rewrite dict_of_pairs_distinct by (by rewrite map_map).
    rewrite map_map. cbn [fst snd]. clear Hdist.
    induction Hitems as [|[k x] items (Hk & ? & ? & ? & Hx) _ (? & ? & ? & Hi)];
      [done|].
    cbn in *. destruct k; try done. cbn.
    repeat apply conj; try by apply andb_true_iff.
    injection Hi as Hi. congruence.
Qed.

Lemma native_plain v :
  json_native v = true -> forall budget, dumps false budget v = dumps true budget v.
Proof.
  induction v as [ |b|n|repr|s|vs IH|vs IH|items IH|cls levels shown]
    using pyval_induction; cbn [json_native dumps]; try done.
  - intros Hnat [|budget]; [done|]. rewrite forallb_forall in Hnat.
    assert (map (dumps false budget) vs = map (dumps true budget) vs) as ->; [|done].
    apply map_ext_Forall. rewrite Forall_forall in IH |- *. intros x Hx.
    apply IH; [done|]. apply Hnat. by apply list_elem_of_In.
  - intros [Hall _]%andb_true_iff [|budget]; [done|]. rewrite forallb_forall in Hall.
    match goal with |- and_then (sequence (map ?f items)) _
                       = and_then (sequence (map ?g items)) _ =>
      assert (map f items = map g items) as ->; [|done] end.
    apply map_ext_Forall. rewrite Forall_forall in IH |- *. intros kv Hkv.
    specialize (Hall kv ltac:(by apply list_elem_of_In)).
    apply andb_true_iff in Hall as [_ Hx]. cbn beta. by rewrite (IH kv Hkv Hx).
Qed.

(** A value of the JSON data model that is not nested deeper than the
    budget is written, with or without [default=str], as a document that
    reads back as that value. *)
Lemma dumps_native default_str budget v :
  json_native v = true ->
  (depth v <= budget)%nat ->
  exists d, dumps default_str budget v = Returned d
            /\ decode d = v /\ scan budget d = Returned tt.
Proof.
  intros Hnat Hdepth.
  assert (dumps default_str budget v = dumps true budget v) as ->.
  { destruct default_str; [done|]. by apply native_plain. }
  destruct (native_serializable v Hnat) as (Hk & Hi & Hp & Hc).
  pose proof (dumps_returns v budget) as Hret.
  rewrite Hk, Hi, Hp in Hret. cbn in Hret.
  destruct (Nat.leb_spec (depth v) budget); [|lia].
  destruct (dumps true budget v) as [d|e] eqn:Hd; [|done].
  exists d. destruct (dumps_coerced v budget d Hd) as [Hdec Hscan].
  by rewrite Hdec, Hc.
Qed.

Lemma encode_native v :
  json_native v = true ->
  (depth v <= recursion_budget)%nat ->
  exists d, encode v = Returned d /\ json_loads (Doc d) = Returned v.
Proof.
  intros Hnat Hdepth.
  destruct (dumps_native true recursion_budget v Hnat Hdepth) as (d & Hd & Hdec & Hscan).
  exists d. split; [done|]. unfold json_loads. by rewrite Hscan, Hdec.
Qed.



Lemma int64_fits n : int64 n -> int_fits n = true.
Proof.
  unfold int64, int_fits, int_max_str_digits. intros Hn.
  apply Z.ltb_lt.
  assert (Z.abs n < 10 ^ 19) as Hlt by lia.
  assert (10 ^ 19 <= 10 ^ 4300); [|lia].
  apply Z.pow_le_mono_r; lia.
Qed.
End Serialization.

Section Storage.
Context `{Interpreter}.
Implicit Types (w : world Redis.server) (c : client).

Lemma set_stores w c key value ttl d :
  _redis_client (proc w) = Some c ->
  Redis.online (backend w) = true ->
  0 < ttl ->
  encode value = Returned d ->
  RedisCache.set key value ttl w
  = (Returned true,
     World (proc w)
       (Redis.with_store
          (<[key := Redis.Entry (Doc d) (Some (Redis.now (backend w) + ttl))]>
             (Redis.store (backend w))) (backend w))
       (wire w ++ [SETEX key ttl (Doc d)])).
Proof.
  intros Hc Hon Httl Henc.
  unfold RedisCache.set, bind, read, try_except, call, ret, lift,
    json_dumps_default_str.
  cbv beta. cbn [fst snd]. rewrite Hc, Henc. cbn.
  unfold Redis.setex. rewrite Hon.
  by destruct (Z.leb_spec ttl 0); [lia|].
Qed.

Lemma set_refuses w c key value ttl e :
  _redis_client (proc w) = Some c ->
  encode value = Raised e ->
  RedisCache.set key value ttl w
  = (Returned false,
     World (with_record (LogRecord ERROR ("Redis SET error: " +:+ str_exn e) [])
              (proc w))
       (backend w) (wire w)).
Proof.
  intros Hc Henc.
  unfold RedisCache.set, bind, read, try_except, call, ret, lift,
    json_dumps_default_str, logger, modify.
  cbv beta. cbn [fst snd]. by rewrite Hc, Henc.
Qed.

Lemma get_reads w c key :
  _redis_client (proc w) = Some c ->
  Redis.online (backend w) = true ->
  fst (RedisCache.get key w)
  = Returned match Redis.live key (backend w) with
             | Some (Redis.Entry t _) =>
                 match json_loads t with
                 | Returned v => v
                 | Raised _ => PNone
                 end
             | None => PNone
             end.
Proof.
  intros Hc Hon.
  unfold RedisCache.get, bind, read, try_except, call, ret, lift. cbv beta.
  cbn [fst snd]. rewrite Hc. cbn. unfold Redis.get. rewrite Hon.
  destruct (Redis.live key (backend w)) as [[[d|raw] dl]|]; cbn; try done.
  - by destruct (scan recursion_budget d).
  - by destruct (negb (String.eqb raw "")).
Qed.

Lemma live_after_set key e s gap :
  0 <= gap ->
  Redis.live key
    (Redis.tick gap (Redis.with_store (<[key := e]> (Redis.store s)) s))
  = if Redis.expired (Redis.now s + gap) e then None else Some e.
Proof. intros Hgap. unfold Redis.live. cbn. by rewrite lookup_insert_eq. Qed.
End Storage.

Section StorageClaims.
Context `{Interpreter}.
Implicit Types (w : world Redis.server) (c : client).

(** C7, as the code has it.  A connected handle, a reachable server, any
    key, any [ttl > 0], and any value of the JSON data model ([None], a
    boolean, an integer of at most 4300 digits, a float other than NaN, a
    string, a list of such values, a dictionary from distinct [str] keys
    to such values) that is not nested deeper than the interpreter lets
    [json] go: [set] succeeds, a [get] made less than [ttl] later returns
    that very value, and a [get] made [ttl] or more later returns
    [None]. *)
Theorem get_after_set w c key value ttl :
  _redis_client (proc w) = Some c ->
  Redis.online (backend w) = true ->
  0 < ttl ->
  json_native value = true ->
  (depth value <= recursion_budget)%nat ->
  fst (RedisCache.set key value ttl w) = Returned true
  /\ (forall gap,
        0 <= gap < ttl ->
        fst (RedisCache.get key
               (environment (Redis.tick gap) (snd (RedisCache.set key value ttl w))))
        = Returned value)
  /\ (forall gap,
        ttl <= gap ->
        fst (RedisCache.get key
               (environment (Redis.tick gap) (snd (RedisCache.set key value ttl w))))
        = Returned PNone).
Proof.
  intros Hc Hon Httl Hnat Hdepth.
  destruct (encode_native value Hnat Hdepth) as (d & Henc & Hloads).
  rewrite (set_stores w c key value ttl d Hc Hon Httl Henc). cbn [fst snd].
  split; [done|]. split; intros gap Hgap.
  - rewrite (get_reads _ c) by done. cbn [environment backend].
    rewrite live_after_set by lia. unfold Redis.expired. cbn [Redis.deadline].
    destruct (Z.leb_spec (Redis.now (backend w) + ttl)
                (Redis.now (backend w) + gap)); [lia|].
    by rewrite Hloads.
  - rewrite (get_reads _ c) by done. cbn [environment backend].
    rewrite live_after_set by lia. unfold Redis.expired. cbn [Redis.deadline].
    by destruct (Z.leb_spec (Redis.now (backend w) + ttl)
                   (Redis.now (backend w) + gap)); [|lia].
Qed.


Lemma increment_sends {B : Type} `{Backend B} (w : world B) c key amount ttl value b1 :
  _redis_client (proc w) = Some c ->
  redis_incr c key amount (backend w) = (Returned value, b1) ->
  ttl <> 0 ->
  wire (snd (RedisCache.increment key amount (Some ttl) w))
  = wire w ++ INCRBY key amount
                :: (if value =? amount then [EXPIRE key ttl] else []).
Proof.
  intros Hc Hincr Httl.
  unfold RedisCache.increment, bind, read, try_except, call, ret, logger, modify.
  cbv beta. cbn [fst snd]. rewrite Hc, Hincr.
  destruct (Z.eqb_spec ttl 0) as [|_]; [done|]. cbn [negb andb].
  destruct (value =? amount); [|done]. cbn [fst snd proc backend wire].
  destruct (redis_expire c key ttl b1) as [[?|?] ?]; cbn; by rewrite <- app_assoc.
Qed.

(** C4, as the code has it.  Over any backend, for every key, every amount
    and every [ttl] other than [0], an [increment] that is answered sends
    the expiry request exactly when the answer equals the amount.  On the
    reference server, for [ttl > 0] and a key that does not exist, the
    first call with amount 1 returns 1 and sets the deadline [ttl] ahead;
    a second call made before the deadline returns 2, sends no expiry
    request and leaves the deadline where it was. *)
Theorem ttl_armed_on_first_increment :
  (forall (B : Type) (HB : Backend B) (w : world B) c key amount ttl value b1,
     _redis_client (proc w) = Some c ->
     redis_incr c key amount (backend w) = (Returned value, b1) ->
     ttl <> 0 ->
     wire (snd (RedisCache.increment key amount (Some ttl) w))
     = wire w ++ INCRBY key amount
                   :: (if value =? amount then [EXPIRE key ttl] else []))
  /\ (forall w c key ttl gap,
        _redis_client (proc w) = Some c ->
        Redis.online (backend w) = true ->
        Redis.live key (backend w) = None ->
        0 < ttl ->
        0 <= gap < ttl ->
        let first := RedisCache.increment key 1 (Some ttl) w in
        let second :=
          RedisCache.increment key 1 (Some ttl)
            (environment (Redis.tick gap) (snd first)) in
        fst first = Returned (Some 1)
        /\ wire (snd first) = wire w ++ [INCRBY key 1; EXPIRE key ttl]
        /\ Redis.live key (backend (snd first))
           = Some (Redis.Entry (Doc (JInt 1)) (Some (Redis.now (backend w) + ttl)))
        /\ fst second = Returned (Some 2)
        /\ wire (snd second) = wire (snd first) ++ [INCRBY key 1]
        /\ Redis.live key (backend (snd second))
           = Some (Redis.Entry (Doc (JInt 2)) (Some (Redis.now (backend w) + ttl)))).
Proof.
  split.
  - intros B HB w c key amount ttl value b1. apply increment_sends.
  - intros w c key ttl gap Hc Hon Hfresh Httl Hgap first second.
    subst second first.
    rewrite (increment_fresh w c key 1 (Some ttl) Hc Hon Hfresh).
    destruct (Z.eqb_spec ttl 0) as [|_]; [lia|].
    destruct (Z.leb_spec ttl 0) as [|_]; [lia|].
    cbn [fst snd].
    set (w1 := World _ _ _).
    assert (Redis.live key (backend w1)
            = Some (Redis.Entry (Doc (JInt 1)) (Some (Redis.now (backend w) + ttl))))
      as Hlive1.
    { subst w1. cbn [backend]. rewrite live_inserted. unfold Redis.expired. cbn.
      by destruct (Z.leb_spec (Redis.now (backend w) + ttl) (Redis.now (backend w)));
        [lia|]. }
    assert (counting (environment (Redis.tick gap) w1) c key 1
              (Some (Redis.now (backend w) + ttl))) as Hcount.
    { apply tick_counting; [done|lia|]. intros D [= <-]. subst w1. cbn. lia. }
    rewrite (increment_existing _ c key 1 (Some ttl) 1 _ Hcount) by (right; lia).
    cbn [fst snd backend wire environment].
    repeat split; try done.
    rewrite live_inserted. unfold Redis.expired. cbn.
    by destruct (Z.leb_spec (Redis.now (backend w) + ttl)
                   (Redis.now (backend w) + gap)); [lia|].
Qed.
End StorageClaims.

(** ** Worked cases *)

Lemma serving_connected :
  _redis_client (proc serving) = Some configured
  /\ Redis.online (backend serving) = true
  /\ wire serving = [PING].
Proof. by vm_compute. Qed.

(** The scenario of the specification: limit 3, window 60, four calls in
    immediate succession, then a fifth after the server was cut off. *)
Example three_then_denied_then_cut_off :
  fst (run (paced (Op_is_allowed "user-1" 3 60) [0; 0; 0]
            ++ [Env Redis.unplug; Do (Op_is_allowed "user-1" 3 60)]) serving)
  = [Returned (Flag true); Returned (Flag true); Returned (Flag true);
     Returned (Flag false); Returned (Flag true)].
Proof. by vm_compute. Qed.

Lemma limit_reached_within_window_witness :
  fst (run (paced (Op_is_allowed "user-1" 3 60) [0; 10; 20]) serving)
  = [Returned (Flag true); Returned (Flag true); Returned (Flag true);
     Returned (Flag false)].
Proof.
  apply (limit_reached_within_window serving configured "user-1" 3 60 [0; 10; 20]).
  - lia.
  - lia.
  - reflexivity.
  - reflexivity.
  - reflexivity.
  - reflexivity.
  - repeat constructor; discriminate.
  - reflexivity.
Defined.

Lemma fail_open_witness :
  fst (RateLimiter.is_allowed "user-1" 3 60
         (World (with_client (Some configured) (fresh_process true)) () []))
  = Returned true
  /\ Forall (fun a => a = Returned (Flag true))
       (fst (run (replicate 5 (Do (Op_is_allowed "user-1" 3 60)))
               (World (with_client (Some configured) (fresh_process true))
                  () []))).
Proof.
  destruct (@fail_open _ unit Unreachable.is_backend) as [Hone Hall]. split.
  - apply Hone. reflexivity.
  - apply Hall.
    + intros c key amount b. reflexivity.
    + repeat constructor.
Defined.



(** C4 as stated fails for [ttl = 0].  On a key that does not exist,
    [increment("k", 1, ttl=0)] returns 1, which is the amount, yet only the
    increment is sent and the new counter has no deadline. *)
Lemma zero_ttl_is_not_armed :
  fst (RedisCache.increment "k" 1 (Some 0) serving) = Returned (Some 1)
  /\ wire (snd (RedisCache.increment "k" 1 (Some 0) serving))
     = wire serving ++ [INCRBY "k" 1]
  /\ Redis.live "k" (backend (snd (RedisCache.increment "k" 1 (Some 0) serving)))
     = Some (Redis.Entry (Doc (JInt 1)) None).
Proof. by vm_compute. Qed.

(** A negative [ttl] is true in Python: the expiry request goes out, and
    the server answers a non-positive expiry by removing the key, so the
    next increment starts from nothing again. *)
Example negative_ttl_drops_the_counter :
  fst (run [Do (Op_increment "k" 1 (Some (-5))); Do (Op_increment "k" 1 (Some (-5)))]
         serving)
  = [Returned (Count (Some 1)); Returned (Count (Some 1))]
  /\ wire (snd (run [Do (Op_increment "k" 1 (Some (-5)))] serving))
     = [PING; INCRBY "k" 1; EXPIRE "k" (-5)].
Proof. by vm_compute. Qed.

Lemma ttl_armed_on_first_increment_witness :
  fst (RedisCache.increment "k" 1 (Some 60) serving) = Returned (Some 1)
  /\ wire (snd (RedisCache.increment "k" 1 (Some 60) serving))
     = [PING; INCRBY "k" 1; EXPIRE "k" 60]
  /\ fst (RedisCache.increment "k" 1 (Some 60)
            (environment (Redis.tick 10)
               (snd (RedisCache.increment "k" 1 (Some 60) serving))))
     = Returned (Some 2).
Proof.
  destruct ttl_armed_on_first_increment as [Hwire Hscenario].
  destruct (Hscenario serving configured "k" 60 10) as (H1 & H2 & H3 & H4 & H5 & H6);
    [reflexivity|reflexivity|reflexivity|lia|lia|].
  split; [exact H1|]. split; [|exact H4].
  apply (Hwire _ _ serving configured "k" 1 60 1
           (snd (Redis.incrby configured "k" 1 (backend serving))));
    [reflexivity|reflexivity|discriminate].
Defined.

Lemma disabled_mode_is_inert_witness :
  RedisCache.get "session:1" stranded = (Returned PNone, stranded)
  /\ RedisCache.set "session:1" (PStr "v") 300 stranded = (Returned false, stranded)
  /\ RedisCache.delete "session:1" stranded = (Returned false, stranded)
  /\ RedisCache.increment "ratelimit:u" 1 (Some 60) stranded
     = (Returned None, stranded).
Proof.
  destruct (disabled_mode_is_inert stranded) as (Hget & Hset & Hdel & Hincr).
  - reflexivity.
  - split; [apply Hget|]. split; [apply Hset|]. split; [apply Hdel|apply Hincr].
Defined.

(** C7 as stated fails for values that [json.dumps] accepts but that are
    not read back as written.  [set("k", (1, 2))] succeeds and [get("k")]
    returns the list [[1, 2]]; [set("k", {1: "a"})] succeeds and
    [get("k")] returns [{"1": "a"}]. *)
Lemma read_back_differs :
  fst (RedisCache.set "k" (PTuple [PInt 1; PInt 2]) 300 serving) = Returned true
  /\ fst (RedisCache.get "k"
            (snd (RedisCache.set "k" (PTuple [PInt 1; PInt 2]) 300 serving)))
     = Returned (PList [PInt 1; PInt 2])
  /\ PList [PInt 1; PInt 2] <> PTuple [PInt 1; PInt 2]
  /\ fst (RedisCache.set "k" (PDict [(KInt 1, PStr "a")]) 300 serving)
     = Returned true
  /\ fst (RedisCache.get "k"
            (snd (RedisCache.set "k" (PDict [(KInt 1, PStr "a")]) 300 serving)))
     = Returned (PDict [(KStr "1", PStr "a")])
  /\ PDict [(KStr "1", PStr "a")] <> PDict [(KInt 1, PStr "a")].
Proof.
  repeat apply conj; try discriminate; by vm_compute.
Qed.

(** The server refuses a non-positive expiry on [SETEX]: [set] with
    [ttl = 0] returns [False] and stores nothing. *)
Example set_with_zero_ttl_fails :
  fst (run [Do (Op_set "k" (PStr "v") 0); Do (Op_get "k")] serving)
  = [Returned (Flag false); Returned (Value PNone)].
Proof. by vm_compute. Qed.

Lemma get_after_set_witness :
  fst (RedisCache.get "k"
         (environment (Redis.tick 299)
            (snd (RedisCache.set "k"
                    (PDict [(KStr "a", PList [PInt 1; PNone; PFloat "1.5"])])
                    300 serving))))
  = Returned (PDict [(KStr "a", PList [PInt 1; PNone; PFloat "1.5"])])
  /\ fst (RedisCache.get "k"
            (environment (Redis.tick 300)
               (snd (RedisCache.set "k"
                       (PDict [(KStr "a", PList [PInt 1; PNone; PFloat "1.5"])])
                       300 serving))))
     = Returned PNone.
Proof.
  destruct (get_after_set serving configured "k"
              (PDict [(KStr "a", PList [PInt 1; PNone; PFloat "1.5"])]) 300
              eq_refl eq_refl eq_refl eq_refl)
    as (_ & Hbefore & Hafter).
  - cbn. lia.
  - split; [apply Hbefore|apply Hafter]; lia.
Defined.

(** A cut in the connection costs the calls made during it and nothing
    more: the value written before is read again once the server is back,
    without another [RedisCache()]. *)
Example cut_then_back :
  fst (run [Do (Op_set "k" (PStr "v") 300); Env Redis.unplug; Do (Op_get "k");
            Do (Op_delete "k"); Env Redis.plug; Do (Op_get "k")] serving)
  = [Returned (Flag true); Returned (Value PNone); Returned (Flag false);
     Returned (Value (PStr "v"))].
Proof. by vm_compute. Qed.

(** Another client leaves a text that is not JSON under a key: [get]
    logs the decoding error and answers [None]; an empty text is answered
    [None] without being decoded. *)
Example malformed_payload_reads_as_absent :
  let scribble (raw : string) (s : Redis.server) :=
    Redis.with_store (<["k" := Redis.Entry (Blob raw) None]> (Redis.store s)) s in
  RedisCache.get "k" (environment (scribble "oops") serving)
  = (Returned PNone,
     World
       (with_record
          (LogRecord ERROR
             "Redis GET error: Expecting value: line 1 column 1 (char 0)" [])
          (proc serving))
       (scribble "oops" (backend serving)) [PING; GET "k"])
  /\ RedisCache.get "k" (environment (scribble "") serving)
     = (Returned PNone,
        World (proc serving) (scribble "" (backend serving)) [PING; GET "k"]).
Proof. by vm_compute. Qed.

Lemma operation_error_is_transient_witness :
  fst (RedisCache.get "k" (environment Redis.unplug serving)) = Returned PNone
  /\ _redis_client (proc (snd (RedisCache.get "k" (environment Redis.unplug serving))))
     = Some configured
  /\ fst (RedisCache.increment "k" 1 (Some 60) (environment Redis.unplug serving))
     = Returned None.
Proof.
  destruct (operation_error_is_transient (environment Redis.unplug serving) configured)
    as (Hget & _ & _ & Hincr & _).
  - reflexivity.
  - destruct (Hget "k") as [H1 H2]; [reflexivity|].
    destruct (Hincr "k" 1 (Some 60)) as [H3 _]; [reflexivity|].
    split; [exact H1|]. split; [exact H2|exact H3].
Defined.

Lemma zero_ttl_never_expires_witness :
  wire (snd (RedisCache.increment "k" 1 (Some 0) serving)) = [PING; INCRBY "k" 1]
  /\ fst (run (paced (Op_is_allowed "u" 2 0) [100; 100000]) serving) !! 2%nat
     = Some (Returned (Flag false)).
Proof.
  destruct zero_ttl_never_expires as (Hwire & _ & Hlimiter). split.
  - apply (Hwire _ _ serving "k" 1 (Some 0)). by right.
  - assert (Forall (fun d => 0 <= d) [100; 100000]) as Hgaps
      by (repeat constructor; discriminate).
    destruct (Hlimiter serving configured "u" 2 [100; 100000]
                eq_refl eq_refl eq_refl Hgaps) as [Hanswers _].
    apply (Hanswers 2%nat). cbn. lia.
Defined.


(** Serialization also fails, and [set] returns [False], for an integer
    of 4301 digits, for an object on which [str] raises, and for a value
    nested deeper than the encoder can go; a float key is accepted and
    comes back as a string. *)
Example serialization_failures :
  fst (RedisCache.set "k" (PList [PInt (10 ^ 4300)]) 300 serving) = Returned false
  /\ fst (RedisCache.set "k" (PInt (10 ^ 4300 - 1)) 300 serving) = Returned true
  /\ fst (RedisCache.set "k"
            (PList [PObject "Broken" 3 (Raised (OtherError "KeyError" "'boom'"))])
            300 serving)
     = Returned false
  /\ fst (RedisCache.set "k" (nested 991) 300 serving) = Returned false
  /\ fst (RedisCache.set "k" (nested 990) 300 serving) = Returned true
  /\ fst (RedisCache.get "k"
            (snd (RedisCache.set "k" (PDict [(KFloat "1.5", PInt 1)]) 300 serving)))
     = Returned (PDict [(KStr "1.5", PInt 1)]).
Proof. repeat apply conj; by vm_compute. Qed.


(** * Further properties of the cache client and the limiter *)

Section LimiterTraffic.
Context `{Interpreter} {B : Type} `{Backend B}.

(** X1.  The calls [is_allowed] makes on the client object.  On a
    disabled handle, none.  On a connected handle, one call of [incr] on
    the identifier's key with amount 1, followed by one call of [expire]
    when the answer is 1 and [window_seconds] is not 0, and no other
    call: the code calls nothing twice and reads nothing.  (What the
    client library sends over the connection to serve these calls, a
    health-check [PING] after 30 idle seconds or a command sent again
    after a timeout, is not part of the statement.) *)
Theorem is_allowed_calls_incr_once (w : world B)
    (identifier : string) (max_requests window_seconds : Z) :
  wire (snd (RateLimiter.is_allowed identifier max_requests window_seconds w))
  = wire w
    ++ match _redis_client (proc w) with
       | None => []
       | Some c =>
           INCRBY ("ratelimit:" +:+ identifier) 1
           :: match fst (redis_incr c ("ratelimit:" +:+ identifier) 1 (backend w)) with
              | Returned value =>
                  if negb (window_seconds =? 0) && (value =? 1)
                  then [EXPIRE ("ratelimit:" +:+ identifier) window_seconds]
                  else []
              | Raised _ => []
              end
       end.
Proof.
  unfold RateLimiter.is_allowed, RedisCache.increment, bind, read, try_except,
    call, ret, logger, modify.
  cbv beta. cbn [fst snd].
  destruct (_redis_client (proc w)) as [c|]; [|by rewrite app_nil_r].
  destruct (redis_incr c _ 1 (backend w)) as [[value|e] b1]; cbn [fst snd]; [|done].
  destruct (negb (window_seconds =? 0) && (value =? 1)); cbn [fst snd proc backend wire].
  - destruct (redis_expire c _ window_seconds b1) as [[ok|e] b2];
      cbn [fst snd proc backend wire].
    + destruct (negb (value <=? max_requests)); cbn; by rewrite <- app_assoc.
    + cbn. by rewrite <- app_assoc.
  - by destruct (negb (value <=? max_requests)).
Qed.

(** X2.  What [is_allowed] logs, beyond what [increment] logged: nothing
    for an allowed request, one warning with the identifier, the count
    and the limit for a denied one, and one warning when it falls back to
    allowing because no count came back. *)
Theorem is_allowed_logs_the_verdict (w : world B)
    (identifier : string) (max_requests window_seconds : Z) :
  journal (proc (snd (RateLimiter.is_allowed identifier max_requests
                        window_seconds w)))
  = journal (proc (snd (RedisCache.increment ("ratelimit:" +:+ identifier) 1
                          (Some window_seconds) w)))
    ++ match fst (RedisCache.increment ("ratelimit:" +:+ identifier) 1
                    (Some window_seconds) w) with
       | Returned None =>
           [LogRecord WARNING "Rate limiter cache unavailable, allowing request" []]
       | Returned (Some count) =>
           if count <=? max_requests then []
           else [LogRecord WARNING "Rate limit exceeded"
                   [("identifier", PStr identifier); ("count", PInt count);
                    ("limit", PInt max_requests)]]
       | Raised _ => []
       end.
Proof.
  unfold RateLimiter.is_allowed, bind. cbv beta.
  destruct (RedisCache.increment _ 1 (Some window_seconds) w) as [[[count|]|e] w1];
    cbn [fst snd]; try done.
  - destruct (count <=? max_requests); cbn; [by rewrite app_nil_r|done].
  - by rewrite app_nil_r.
Qed.
End LimiterTraffic.

Section Construction.
Context `{Interpreter} {B : Type} `{Backend B}.

(** X3.  [RedisCache()] on a handle that already has a client changes
    nothing that matters: the client is the same object, nothing is sent
    (no second connection, no ping) and the store is not touched.  The
    instance exists afterwards. *)
Theorem instantiate_again_keeps_the_connection (w : world B) (c : client) :
  _redis_client (proc w) = Some c ->
  _redis_client (proc (instantiated w)) = Some c
  /\ wire (instantiated w) = wire w
  /\ backend (instantiated w) = backend w
  /\ _instance (proc (instantiated w)) = true.
Proof.
  intros Hc.
  unfold instantiated, RedisCache.RedisCache, RedisCache.__new__,
    RedisCache.__init__, bind, read, ret, modify, logger.
  cbv beta. cbn [fst snd].
  destruct (_instance (proc w)) eqn:Hi; cbn [fst snd proc backend wire with_instance
    REDIS_AVAILABLE _redis_client];
    destruct (REDIS_AVAILABLE (proc w)); cbn; rewrite ?Hc; cbn; by rewrite ?Hc, ?Hi.
Qed.

Lemma redis_Redis_hardened (w : world B) (c : client) :
  fst (RedisCache.redis_Redis w) = Returned c -> hardened c.
Proof.
  unfold RedisCache.redis_Redis; unfold_monad; cbn.
  destruct (py_int _); cbn; [|done]. intros [= <-]. by repeat split.
Qed.

Lemma connect_client (w : world B) (c : client) :
  _redis_client (proc (snd (RedisCache._connect w))) = Some c ->
  _redis_client (proc w) = Some c \/ fst (RedisCache.redis_Redis w) = Returned c.
Proof.
  pose proof (redis_Redis_pure w) as Hpure.
  unfold RedisCache._connect, bind, read, try_except. cbv beta.
  destruct (REDIS_AVAILABLE (proc w)); cbn [negb fst snd]; [|by left].
  destruct (RedisCache.redis_Redis w) as [[c'|e] w'] eqn:Hr; cbn [fst snd] in *;
    subst w'; unfold call, logger, modify, ret; cbn; [|done].
  destruct (redis_ping c' (backend w)) as [[[]|?] ?]; cbn; [|done].
  intros [= <-]. by right.
Qed.

Lemma instantiate_client (w : world B) (c : client) :
  _redis_client (proc (instantiated w)) = Some c ->
  _redis_client (proc w) = Some c \/ fst (RedisCache.redis_Redis w) = Returned c.
Proof.
  destruct (new_keeps w) as (Hr & Hav & Henv & Hc & Hb & Hw).
  unfold instantiated, RedisCache.RedisCache, bind. cbv beta.
  destruct (RedisCache.__new__ w) as [[[]|e] w1]; cbn [fst snd] in *; [|done].
  unfold RedisCache.__init__, bind, read, logger, modify. cbv beta.
  destruct (REDIS_AVAILABLE (proc w1)); cbn [negb fst snd proc].
  - destruct (_redis_client (proc w1)) as [c1|] eqn:Hc1.
    + cbn. rewrite Hc1, <- Hc. by left.
    + intros Hconn. destruct (connect_client w1 c Hconn) as [Hold|Hnew].
      * left. congruence.
      * right. by rewrite <- (redis_Redis_environ w w1).
  - cbn. rewrite Hc. by left.
Qed.

Lemma connect_environ (w : world B) :
  environ (proc (snd (RedisCache._connect w))) = environ (proc w).
Proof.
  pose proof (redis_Redis_pure w) as Hpure.
  unfold RedisCache._connect, bind, read, try_except. cbv beta.
  destruct (REDIS_AVAILABLE (proc w)); cbn [negb fst snd]; [|done].
  destruct (RedisCache.redis_Redis w) as [[c'|e] w'] eqn:Hr; cbn [fst snd] in *;
    subst w'; unfold call, logger, modify, ret; cbn; [|done].
  by destruct (redis_ping c' (backend w)) as [[[]|?] ?].
Qed.

Lemma instantiate_environ (w : world B) :
  environ (proc (instantiated w)) = environ (proc w).
Proof.
  destruct (new_keeps w) as (Hr & Hav & Henv & Hc & Hb & Hw).
  unfold instantiated, RedisCache.RedisCache, bind. cbv beta.
  destruct (RedisCache.__new__ w) as [[[]|e] w1]; cbn [fst snd] in *; [|done].
  rewrite <- Henv. clear.
  unfold RedisCache.__init__, bind, read, logger, modify. cbv beta.
  destruct (REDIS_AVAILABLE (proc w1)); cbn [negb fst snd proc]; [|done].
  destruct (_redis_client (proc w1)); cbn [fst snd]; [done|].
  apply connect_environ.
Qed.

Lemma perform_environ (o : operation) (w : world B) :
  environ (proc (snd (perform o w))) = environ (proc w).
Proof.
  destruct o as [key|key value ttl|key|key amount ttl|i n ws];
    unfold perform, RateLimiter.is_allowed, RedisCache.get, RedisCache.set,
      RedisCache.delete, RedisCache.increment, bind, read, try_except, call, ret,
      lift, logger, modify, json_dumps_default_str;
    cbv beta; cbn [fst snd]; destruct (_redis_client (proc w)) as [c|]; try done.
  - destruct (redis_get c key (backend w)) as [[[t|]|e] b1]; cbn; try done.
    destruct (text_truthy t); [|done]. destruct t as [d|raw]; cbn; [|done]. by destruct (scan _ d).
  - destruct (encode value); cbn; [|done].
    by destruct (redis_setex c key ttl _ (backend w)) as [[[]|e] b1].
  - by destruct (redis_delete c key (backend w)) as [[?|e] b1].
  - destruct (redis_incr c key amount (backend w)) as [[v|e] b1]; cbn; [|done].
    destruct ttl as [t|]; [|done].
    destruct (negb (t =? 0) && (v =? amount)); [|done].
    cbn. by destruct (redis_expire c key t b1) as [[?|e] b2].
  - destruct (redis_incr c _ 1 (backend w)) as [[v|e] b1]; cbn; [|done].
    destruct (negb (ws =? 0) && (v =? 1)); cbn.
    + answer_cases; cbn; [|done]. by destruct (negb (v <=? n)).
    + by destruct (negb (v <=? n)).
Qed.

(** X4.  Whatever callers do and whatever happens to the backend, a
    handle that started without a client only ever holds the client that
    [redis.Redis] builds from the environment of the process: its host,
    port and password are the configured ones, and it always has TLS on,
    decoded responses, 5-second connect and read timeouts, retry on
    timeout and a 30-second health check. *)
Theorem handle_only_holds_the_configured_client (steps : list (step B))
    (w : world B) (c : client) :
  _redis_client (proc w) = None ->
  _redis_client (proc (snd (run steps w))) = Some c ->
  fst (RedisCache.redis_Redis w) = Returned c /\ hardened c.
Proof.
  intros Hnone Hc.
  enough (fst (RedisCache.redis_Redis w) = Returned c) as Hbuilt.
  { split; [done|]. by apply (redis_Redis_hardened w). }
  enough (forall w',
            environ (proc w') = environ (proc w) ->
            (forall c', _redis_client (proc w') = Some c' ->
                        fst (RedisCache.redis_Redis w) = Returned c') ->
            _redis_client (proc (snd (run steps w'))) = Some c ->
            fst (RedisCache.redis_Redis w) = Returned c) as Hgen.
  { apply (Hgen w); [done| |done]. intros c'. by rewrite Hnone. }
  clear Hnone Hc.
  induction steps as [|[o| |change] steps IH]; intros w' Henv Hinv Hc; cbn in Hc.
  - by apply Hinv.
  - pose proof (perform_keeps_handle o w') as Hk.
    pose proof (perform_environ o w') as He.
    destruct (perform o w') as [a w1]. cbn [fst snd] in *.
    destruct (run steps w1) as [outs w2] eqn:Hrun. cbn [snd] in Hc.
    apply (IH w1); [congruence| |by rewrite Hrun].
    intros c'. rewrite Hk. apply Hinv.
  - pose proof (instantiate_client w') as Hk.
    pose proof (instantiate_environ w') as He.
    unfold instantiated in *. unfold bind at 1 in Hc.
    destruct (RedisCache.RedisCache w') as [[[]|e] w1]; cbn [fst snd] in *.
    + unfold ret in Hc. destruct (run steps w1) as [outs w2] eqn:Hrun.
      cbn [snd] in Hc. apply (IH w1); [congruence| |by rewrite Hrun].
      intros c' Hc'. destruct (Hk c' Hc') as [Hold|Hnew]; [by apply Hinv|].
      by rewrite <- (redis_Redis_environ w w' Henv).
    + destruct (run steps w1) as [outs w2] eqn:Hrun.
      cbn [snd] in Hc. apply (IH w1); [congruence| |by rewrite Hrun].
      intros c' Hc'. destruct (Hk c' Hc') as [Hold|Hnew]; [by apply Hinv|].
      by rewrite <- (redis_Redis_environ w w' Henv).
  - apply (IH (environment change w')); done.
Qed.

Lemma new_journal (w : world B) :
  journal (proc (snd (RedisCache.__new__ w))) = journal (proc w).
Proof.
  unfold RedisCache.__new__, bind, read, ret, modify.
  by destruct (_instance (proc w)).
Qed.

Lemma connect_malformed (w : world B) :
  REDIS_AVAILABLE (proc w) = true ->
  returns (fst (RedisCache.redis_Redis w)) = false ->
  RedisCache._connect w
  = (Returned tt,
     World
       (with_client None
          (with_record (LogRecord ERROR "Failed to connect to Redis" []) (proc w)))
       (backend w) (wire w)).
Proof.
  intros Hav Hbad.
  pose proof (redis_Redis_pure w) as Hpure.
  unfold RedisCache._connect, bind, read, try_except. cbv beta.
  rewrite Hav. cbn [negb fst snd].
  destruct (RedisCache.redis_Redis w) as [[c|e] w'] eqn:Hr; [done|].
  cbn [fst snd] in *. by subst w'.
Qed.

(** X5.  When the port in the environment is not a number, [RedisCache()]
    on a handle without a client sends nothing, not even a ping: the
    conversion fails inside [_connect], the failure is logged and the
    handle is left disabled. *)
Theorem malformed_port_disables_the_handle (w : world B) :
  REDIS_AVAILABLE (proc w) = true ->
  _redis_client (proc w) = None ->
  returns (fst (RedisCache.redis_Redis w)) = false ->
  fst (RedisCache.RedisCache w) = Returned tt
  /\ _redis_client (proc (instantiated w)) = None
  /\ wire (instantiated w) = wire w
  /\ backend (instantiated w) = backend w
  /\ journal (proc (instantiated w))
     = journal (proc w) ++ [LogRecord ERROR "Failed to connect to Redis" []].
Proof.
  intros Hav Hc Hbad.
  destruct (new_keeps w) as (Hr & Hav' & Henv & Hc' & Hb & Hw).
  pose proof (new_journal w) as Hj.
  unfold instantiated, RedisCache.RedisCache, bind. cbv beta.
  destruct (RedisCache.__new__ w) as [[[]|e] w1]; cbn [fst snd] in *; [|done].
  rewrite init_connects by congruence.
  rewrite connect_malformed; [|congruence|by rewrite (redis_Redis_environ w w1)].
  cbn. by rewrite Hb, Hw, Hj.
Qed.
End Construction.

Section ReferenceServer.
Context `{Interpreter}.
Implicit Types (w : world Redis.server) (s : Redis.server) (c : client).

Lemma live_insert_other key key' e s :
  key' <> key ->
  Redis.live key' (Redis.with_store (<[key := e]> (Redis.store s)) s)
  = Redis.live key' s.
Proof. intros Hne. unfold Redis.live. cbn. by rewrite lookup_insert_ne. Qed.

Lemma live_delete_other key key' s :
  key' <> key ->
  Redis.live key' (Redis.with_store (base.delete key (Redis.store s)) s)
  = Redis.live key' s.
Proof. intros Hne. unfold Redis.live. cbn. by rewrite lookup_delete_ne. Qed.

Lemma live_deleted key s :
  Redis.live key (Redis.with_store (base.delete key (Redis.store s)) s) = None.
Proof. unfold Redis.live. cbn. by rewrite lookup_delete_eq. Qed.

Lemma incrby_other key key' amount c s :
  key' <> key ->
  Redis.live key' (snd (Redis.incrby c key amount s)) = Redis.live key' s.
Proof.
  intros Hne. unfold Redis.incrby. destruct (Redis.online s); [|done].
  destruct (Redis.live key s) as [e|]; [|by apply live_insert_other].
  destruct (Redis.int_of_text (Redis.payload e)); [|done].
  by apply live_insert_other.
Qed.

Lemma expire_other key key' ttl c s :
  key' <> key ->
  Redis.live key' (snd (Redis.expire c key ttl s)) = Redis.live key' s.
Proof.
  intros Hne. unfold Redis.expire. destruct (Redis.online s); [|done].
  destruct (Redis.live key s) as [e|]; [|done].
  destruct (ttl <=? 0); cbn [snd]; [by apply live_delete_other|by apply live_insert_other].
Qed.

Lemma increment_other key key' amount ttl w :
  key' <> key ->
  Redis.live key' (backend (snd (RedisCache.increment key amount ttl w)))
  = Redis.live key' (backend w).
Proof.
  intros Hne.
  pose proof (incrby_other key key' amount) as Hincr.
  pose proof (expire_other key key') as Hexp.
  unfold RedisCache.increment, bind, read, try_except, call, ret, logger, modify.
  cbv beta. cbn [fst snd].
  destruct (_redis_client (proc w)) as [c|]; [|done].
  specialize (Hincr c (backend w) Hne). cbn [redis_incr Redis.is_backend].
  destruct (Redis.incrby c key amount (backend w)) as [[v|e] b1];
    cbn [fst snd backend] in *; [|done].
  destruct ttl as [t|]; [|done].
  destruct (negb (t =? 0) && (v =? amount)); [|done].
  cbn [fst snd proc backend wire redis_expire Redis.is_backend].
  specialize (Hexp t c b1 Hne).
  destruct (Redis.expire c key t b1) as [[ok|e] b2]; cbn [fst snd backend] in *;
    congruence.
Qed.

(** X6.  A method call addresses one key of the store: whatever the
    operation and its outcome, every other key holds afterwards what it
    held before. *)
Theorem operations_touch_one_key (o : operation) w (key' : string) :
  key' <> key_of o ->
  Redis.live key' (backend (snd (perform o w))) = Redis.live key' (backend w).
Proof.
  intros Hne.
  destruct o as [key|key value ttl|key|key amount ttl|i n ws]; unfold key_of in Hne;
    unfold perform, bind; cbv beta.
  - unfold RedisCache.get, bind, read, try_except, call, ret, lift, logger, modify.
    cbv beta. cbn [fst snd].
    destruct (_redis_client (proc w)) as [c|]; [|done].
    cbn [redis_get Redis.is_backend]. unfold Redis.get, Redis.unreachable.
    destruct (Redis.online (backend w)); [|done]. cbn [fst snd].
    destruct (Redis.live key (backend w)) as [[t dl]|]; cbn; [|done].
    destruct (text_truthy t); [|done]. destruct t as [d|raw]; cbn; [|done]. by destruct (scan _ d).
  - unfold RedisCache.set, bind, read, try_except, call, ret, lift, logger, modify,
      json_dumps_default_str.
    cbv beta. cbn [fst snd].
    destruct (_redis_client (proc w)) as [c|]; [|done].
    destruct (encode value) as [d|e]; cbn [and_then fst snd]; [|done].
    cbn [redis_setex Redis.is_backend]. unfold Redis.setex, Redis.unreachable.
    destruct (Redis.online (backend w)); [|done].
    destruct (ttl <=? 0); cbn [fst snd backend]; [done|].
    by apply live_insert_other.
  - unfold RedisCache.delete, bind, read, try_except, call, ret, logger, modify.
    cbv beta. cbn [fst snd].
    destruct (_redis_client (proc w)) as [c|]; [|done].
    cbn [redis_delete Redis.is_backend]. unfold Redis.del, Redis.unreachable.
    destruct (Redis.online (backend w)); [|done]. cbn [fst snd backend].
    by apply live_delete_other.
  - pose proof (increment_other key key' amount ttl w Hne) as Hk.
    by destruct (RedisCache.increment key amount ttl w) as [[?|?] ?].
  - pose proof (increment_other ("ratelimit:" +:+ i) key' 1 (Some ws) w Hne) as Hk.
    unfold RateLimiter.is_allowed, bind. cbv beta zeta.
    destruct (RedisCache.increment ("ratelimit:" +:+ i) 1 (Some ws) w)
      as [[[count|]|e] w1]; cbn [fst snd] in *; try done.
    by destruct (negb (count <=? n)).
Qed.

Lemma ratelimit_key_injective (i j : string) :
  "ratelimit:" +:+ i = "ratelimit:" +:+ j -> i = j.
Proof. intros Heq. cbv [String.append] in Heq. by injection Heq. Qed.

(** X7.  Identifiers do not share a quota: a call to [is_allowed] for one
    identifier leaves the counter of every other identifier, and its
    deadline, as they were. *)
Theorem identifiers_count_separately w (i j : string) (max_requests window_seconds : Z) :
  i <> j ->
  Redis.live ("ratelimit:" +:+ j)
    (backend (snd (RateLimiter.is_allowed i max_requests window_seconds w)))
  = Redis.live ("ratelimit:" +:+ j) (backend w).
Proof.
  intros Hne.
  assert ("ratelimit:" +:+ j <> "ratelimit:" +:+ i) as Hkeys
    by (intros Heq; apply Hne; symmetry; by apply ratelimit_key_injective).
  pose proof (increment_other ("ratelimit:" +:+ i) ("ratelimit:" +:+ j) 1
                (Some window_seconds) w Hkeys) as Hk.
  unfold RateLimiter.is_allowed, bind. cbv beta zeta.
  destruct (RedisCache.increment ("ratelimit:" +:+ i) 1 (Some window_seconds) w)
    as [[[count|]|e] w1]; cbn [fst snd] in *; try done.
  by destruct (negb (count <=? max_requests)).
Qed.

(** X8.  On a connected handle in front of a reachable server, [delete]
    returns [True] whether or not the key existed, and a [get] of that key
    made any time later returns [None]. *)
Theorem get_after_delete w c key gap :
  _redis_client (proc w) = Some c ->
  Redis.online (backend w) = true ->
  0 <= gap ->
  fst (RedisCache.delete key w) = Returned true
  /\ fst (RedisCache.get key
            (environment (Redis.tick gap) (snd (RedisCache.delete key w))))
     = Returned PNone.
Proof.
  intros Hc Hon Hgap.
  assert (RedisCache.delete key w
          = (Returned true,
             World (proc w)
               (Redis.with_store (base.delete key (Redis.store (backend w)))
                  (backend w))
               (wire w ++ [DEL key]))) as ->.
  { unfold RedisCache.delete, bind, read, try_except, call, ret. cbv beta.
    cbn [fst snd]. rewrite Hc. cbn [redis_delete Redis.is_backend].
    unfold Redis.del. by rewrite Hon. }
  split; [done|]. rewrite (get_reads _ c) by done.
  cbn [snd environment backend]. unfold Redis.live. cbn.
  by rewrite lookup_delete_eq.
Qed.

(** X9.  [get] only reads: on the reference server it leaves every key,
    every deadline and the clock as they were, whether the handle is
    connected or not and whatever the key holds. *)
Theorem get_leaves_the_store w key :
  backend (snd (RedisCache.get key w)) = backend w.
Proof.
  unfold RedisCache.get, bind, read, try_except, call, ret, lift, logger, modify.
  cbv beta. cbn [fst snd].
  destruct (_redis_client (proc w)) as [c|]; [|done].
  cbn [redis_get Redis.is_backend]. unfold Redis.get, Redis.unreachable.
  destruct (Redis.online (backend w)); [|done]. cbn [fst snd].
  destruct (Redis.live key (backend w)) as [[t dl]|]; cbn; [|done].
  destruct (text_truthy t); [|done]. destruct t as [d|raw]; cbn; [|done]. by destruct (scan _ d).
Qed.

(** X10.  The server refuses an expiry that is not positive, so [set]
    with [ttl <= 0] returns [False] even though the server is reachable
    and the value serializes; nothing is written, and what the key held
    before is still there. *)
Theorem set_needs_a_positive_ttl w c key value ttl :
  _redis_client (proc w) = Some c ->
  Redis.online (backend w) = true ->
  ttl <= 0 ->
  fst (RedisCache.set key value ttl w) = Returned false
  /\ backend (snd (RedisCache.set key value ttl w)) = backend w.
Proof.
  intros Hc Hon Httl.
  unfold RedisCache.set, bind, read, try_except, call, ret, lift, logger, modify,
    json_dumps_default_str.
  cbv beta. cbn [fst snd]. rewrite Hc.
  destruct (encode value) as [d|e]; cbn [and_then fst snd]; [|done].
  cbn [redis_setex Redis.is_backend]. unfold Redis.setex. rewrite Hon.
  by destruct (Z.leb_spec ttl 0); [|lia].
Qed.

(** X11.  The last write wins and restarts the clock.  After a [set] of
    any value, which may succeed or fail, and a second [set] of the same
    key with a value of the JSON data model that is not nested too deep,
    a [get] made before the second ttl has elapsed returns the second
    value, whether or not the first had expired in between, and the key
    expires one second-ttl after the second write. *)
Theorem last_write_wins w c key first second ttl1 ttl2 gap later :
  _redis_client (proc w) = Some c ->
  Redis.online (backend w) = true ->
  0 < ttl1 ->
  0 < ttl2 ->
  0 <= gap ->
  json_native second = true ->
  (depth second <= recursion_budget)%nat ->
  let w1 := snd (RedisCache.set key first ttl1 w) in
  let w2 := snd (RedisCache.set key second ttl2 (environment (Redis.tick gap) w1)) in
  (0 <= later < ttl2 ->
   fst (RedisCache.get key (environment (Redis.tick later) w2)) = Returned second)
  /\ (ttl2 <= later ->
      fst (RedisCache.get key (environment (Redis.tick later) w2)) = Returned PNone).
Proof.
  intros Hc Hon Httl1 Httl2 Hgap Hn2 Hdepth w1 w2. subst w2 w1.
  destruct (encode_native second Hn2 Hdepth) as (d2 & Henc2 & Hloads2).
  destruct (encode first) as [d1|e1] eqn:Henc1.
  - rewrite (set_stores w c key first ttl1 d1 Hc Hon Httl1 Henc1). cbn [snd].
    rewrite (set_stores _ c key second ttl2 d2) by done. cbn [snd].
    split; intros Hlater; rewrite (get_reads _ c) by done;
      cbn [environment backend proc]; rewrite live_after_set by lia;
      unfold Redis.expired; cbn.
    + destruct (Z.leb_spec (Redis.now (backend w) + gap + ttl2)
                  (Redis.now (backend w) + gap + later)); [lia|].
      by rewrite Hloads2.
    + by destruct (Z.leb_spec (Redis.now (backend w) + gap + ttl2)
                     (Redis.now (backend w) + gap + later)); [|lia].
  - rewrite (set_refuses w c key first ttl1 e1 Hc Henc1). cbn [snd].
    rewrite (set_stores _ c key second ttl2 d2) by done. cbn [snd].
    split; intros Hlater; rewrite (get_reads _ c) by done;
      cbn [environment backend proc]; rewrite live_after_set by lia;
      unfold Redis.expired; cbn.
    + destruct (Z.leb_spec (Redis.now (backend w) + gap + ttl2)
                  (Redis.now (backend w) + gap + later)); [lia|].
      by rewrite Hloads2.
    + by destruct (Z.leb_spec (Redis.now (backend w) + gap + ttl2)
                     (Redis.now (backend w) + gap + later)); [|lia].
Qed.
End ReferenceServer.

Section Timeline.
Context `{Interpreter}.
Implicit Types (w : world Redis.server) (s : Redis.server) (c : client).

Lemma run_app {B : Type} `{Backend B} (before after : list (step B)) (w : world B) :
  run (before ++ after) w
  = (fst (run before w) ++ fst (run after (snd (run before w))),
     snd (run after (snd (run before w)))).
Proof.
  revert w. induction before as [|[o| |change] before IH]; intros w;
    cbn [app run fst snd].
  - by destruct (run after w).
  - destruct (perform o w) as [a w1]. rewrite IH.
    by destruct (run before w1).
  - destruct ((RedisCache.RedisCache;; ret Handle) w) as [a w1]. rewrite IH.
    by destruct (run before w1).
  - apply IH.
Qed.

Lemma live_lapsed key s e D d :
  Redis.live key s = Some e ->
  Redis.deadline e = Some D ->
  D <= Redis.now s + d ->
  Redis.live key (Redis.tick d s) = None.
Proof.
  unfold Redis.live. cbn. destruct (Redis.store s !! key) as [e'|]; [|done].
  destruct (Redis.expired (Redis.now s) e'); [done|]. intros [= ->] HD Hle.
  unfold Redis.expired. rewrite HD. by destruct (Z.leb_spec D (Redis.now s + d)); [|lia].
Qed.

Lemma run_paced_clock c identifier max_requests window_seconds dl gaps :
  forall w n,
    counting w c ("ratelimit:" +:+ identifier) n dl ->
    window_seconds = 0 \/ 0 < n ->
    Forall (fun d => 0 <= d) gaps ->
    (forall D, dl = Some D -> Redis.now (backend w) + elapsed gaps < D) ->
    Redis.now
      (backend
         (snd (run (flat_map (fun d => [Env (Redis.tick d);
                                        Do (Op_is_allowed identifier max_requests
                                              window_seconds)]) gaps) w)))
    = Redis.now (backend w) + elapsed gaps.
Proof.
  induction gaps as [|d gaps IH]; intros w n Hcount Hguard Hpos Hin.
  - cbn. lia.
  - apply Forall_cons in Hpos as [Hd Hpos]. cbn [elapsed foldr] in *.
    fold (elapsed gaps) in *.
    pose proof (elapsed_nonneg gaps Hpos) as Hel.
    cbn [flat_map app run].
    pose proof (tick_counting w c _ n dl d Hcount Hd
                  ltac:(intros D HD; specialize (Hin D HD); lia)) as Hcount1.
    destruct (is_allowed_counts (environment (Redis.tick d) w) c identifier
                max_requests window_seconds n dl Hcount1 ltac:(lia))
      as (_ & Hcount2 & Hnow).
    destruct (perform _ (environment (Redis.tick d) w)) as [a w1].
    cbn [fst snd] in *.
    specialize (IH w1 (n + 1) Hcount2 ltac:(lia) Hpos).
    destruct (run _ w1) as [outs w2]. cbn [fst snd] in *.
    rewrite IH; [rewrite Hnow; cbn; lia|].
    intros D HD. specialize (Hin D HD). rewrite Hnow. cbn. lia.
Qed.

(** X12.  The window is fixed, and it ends.  With a connected handle, a
    reachable server and no counter yet, the first call opens a window of
    [window_seconds]; after [max_requests] allowed calls the next one in
    the window is denied; and the first call made once [window_seconds]
    have passed since the opening call is allowed again and opens a new
    window, [window_seconds] long from that call. *)
Theorem denial_ends_with_the_window w c identifier max_requests window_seconds gaps d :
  1 <= max_requests ->
  0 < window_seconds ->
  _redis_client (proc w) = Some c ->
  Redis.online (backend w) = true ->
  Redis.live ("ratelimit:" +:+ identifier) (backend w) = None ->
  Z.of_nat (length gaps) = max_requests ->
  Forall (fun d => 0 <= d) gaps ->
  elapsed gaps < window_seconds ->
  window_seconds <= elapsed gaps + d ->
  fst (run (paced (Op_is_allowed identifier max_requests window_seconds) gaps
            ++ [Env (Redis.tick d);
                Do (Op_is_allowed identifier max_requests window_seconds)]) w)
  = replicate (length gaps) (Returned (Flag true))
    ++ [Returned (Flag false); Returned (Flag true)]
  /\ Redis.live ("ratelimit:" +:+ identifier)
       (backend
          (snd (run (paced (Op_is_allowed identifier max_requests window_seconds) gaps
                     ++ [Env (Redis.tick d);
                         Do (Op_is_allowed identifier max_requests window_seconds)])
                  w)))
     = Some (Redis.Entry (Doc (JInt 1))
               (Some (Redis.now (backend w) + elapsed gaps + d + window_seconds))).
Proof.
  intros Hlimit Hwindow Hc Hon Hfresh Hlen Hpos Hin Hout.
  rewrite run_app.
  unfold paced. cbn [run].
  destruct (is_allowed_creates w c identifier max_requests window_seconds
              Hc Hon Hfresh ltac:(lia)) as (Ha & Hcount & Hnow).
  destruct (perform _ w) as [a w1]. cbn [fst snd] in *. subst a.
  destruct (Z.eqb_spec window_seconds 0) as [|_]; [lia|].
  assert (forall D, Some (Redis.now (backend w) + window_seconds) = Some D ->
                    Redis.now (backend w1) + elapsed gaps < D) as Hwithin.
  { intros D [= <-]. rewrite Hnow. lia. }
  destruct (run_counting c identifier max_requests window_seconds _ gaps w1 1
              Hcount ltac:(lia) Hpos Hwithin) as [Hv (Hc2 & Hon2 & Hlive2)].
  pose proof (run_paced_clock c identifier max_requests window_seconds _ gaps w1 1
                Hcount ltac:(lia) Hpos Hwithin) as Hclock.
  destruct (run _ w1) as [outs w2]. cbn [fst snd] in *. subst outs.
  assert (Redis.live ("ratelimit:" +:+ identifier)
            (backend (environment (Redis.tick d) w2)) = None) as Hgone.
  { cbn [environment backend]. eapply live_lapsed; [exact Hlive2|done|].
    rewrite Hclock, Hnow. lia. }
  destruct (is_allowed_creates (environment (Redis.tick d) w2) c identifier
              max_requests window_seconds Hc2 Hon2 Hgone ltac:(lia))
    as (Ha & (_ & _ & Hlive3) & _).
  destruct (perform _ (environment (Redis.tick d) w2)) as [a3 w3].
  cbn [fst snd] in *. subst a3.
  destruct (Z.leb_spec 1 max_requests); [|lia].
  split.
  - destruct (length gaps) as [|k] eqn:Hk; [lia|].
    assert (1 + Z.of_nat k <= max_requests) as Hroom by lia.
    rewrite verdicts_snoc. rewrite verdicts_within by exact Hroom.
    destruct (Z.leb_spec (1 + Z.of_nat k + 1) max_requests); [lia|].
    cbn [replicate app]. by rewrite <- app_assoc.
  - rewrite Hlive3. cbn [environment backend Redis.tick Redis.now].
    rewrite Hclock, Hnow.
    by destruct (Z.eqb_spec window_seconds 0) as [|_]; [lia|].
Qed.

(** X13.  [is_allowed] never gives a deadline to a counter that exists
    without one.  If the counter of an identifier is already at the limit
    or beyond and has no deadline, the calls that follow are denied,
    however long the caller waits and whatever [window_seconds] it passes,
    for as long as the counter stays in the range of the server's
    integers, and the counter still has no deadline afterwards.  (At the
    end of that range the server refuses the increment and the limiter
    allows the request.) *)
Theorem counter_without_deadline_stays_blocked w c identifier max_requests
    window_seconds n gaps :
  counting w c ("ratelimit:" +:+ identifier) n None ->
  0 < n ->
  max_requests <= n ->
  Forall (fun d => 0 <= d) gaps ->
  int64 (n + Z.of_nat (length gaps)) ->
  Forall (fun a => a = Returned (Flag false))
    (fst (run (flat_map (fun d => [Env (Redis.tick d);
                                   Do (Op_is_allowed identifier max_requests
                                         window_seconds)]) gaps) w))
  /\ Redis.live ("ratelimit:" +:+ identifier)
       (backend
          (snd (run (flat_map (fun d => [Env (Redis.tick d);
                                         Do (Op_is_allowed identifier max_requests
                                               window_seconds)]) gaps) w)))
     = Some (Redis.Entry (Doc (JInt (n + Z.of_nat (length gaps)))) None).
Proof.
  intros Hcount Hn Hfull Hpos _.
  destruct (run_counting c identifier max_requests window_seconds None gaps w n
              Hcount ltac:(lia) Hpos ltac:(done)) as [Hv (_ & _ & Hlive)].
  split; [|done]. rewrite Hv. clear -Hfull.
  revert n Hfull. induction (length gaps) as [|k IH]; intros n Hfull; cbn [verdicts].
  - constructor.
  - constructor; [|apply IH; lia].
    by destruct (Z.leb_spec (n + 1) max_requests); [lia|].
Qed.

Lemma increments_from c key amounts :
  forall w n dl,
    counting w c key n dl ->
    fst (run (map (fun a => Do (Op_increment key a None)) amounts) w)
    = map (fun total => Returned (Count (Some total))) (running_totals n amounts)
    /\ counting (snd (run (map (fun a => Do (Op_increment key a None)) amounts) w))
         c key (n + foldr Z.add 0 amounts) dl.
Proof.
  induction amounts as [|a amounts IH]; intros w n dl Hcount.
  - cbn. by rewrite Z.add_0_r.
  - cbn [map run running_totals foldr].
    assert (perform (Op_increment key a None) w
            = (Returned (Count (Some (n + a))),
               snd (RedisCache.increment key a None w))) as ->.
    { unfold perform, bind.
      by rewrite (increment_existing w c key a None n dl Hcount I). }
    rewrite (increment_existing w c key a None n dl Hcount I). cbn [snd].
    set (w1 := World _ _ _).
    assert (counting w1 c key (n + a) dl) as Hcount1.
    { destruct Hcount as (Hc & Hon & Hlive). subst w1. unfold counting.
      cbn [proc backend]. repeat split; [done|done|].
      rewrite live_inserted.
      pose proof (live_not_expired _ _ _ Hlive) as Hexp.
      unfold Redis.expired in *. cbn in *. by rewrite Hexp. }
    destruct (IH w1 (n + a) dl Hcount1) as [IHa IHc].
    destruct (run _ w1) as [outs w2]. cbn [fst snd] in *. subst outs.
    split; [done|]. by rewrite Z.add_assoc.
Qed.

Lemma running_totals_last (P : Z -> Prop) amounts :
  forall n a,
    Forall P (running_totals n (a :: amounts)) ->
    P (n + foldr Z.add 0 (a :: amounts)).
Proof.
  induction amounts as [|a' amounts IH]; intros n a; cbn [running_totals foldr].
  - intros [Hn _]%Forall_cons. by rewrite Z.add_0_r.
  - intros [_ Hrest]%Forall_cons. specialize (IH (n + a) a' Hrest).
    cbn [foldr] in IH. by rewrite Z.add_assoc.
Qed.

(** X14.  Increments add up.  Starting from a key that does not exist,
    successive [increment]s without a ttl, with amounts, positive or
    negative, and running totals that stay in the range of the server's
    integers, return these running totals; the counter gets no deadline;
    and a [get] of the key then returns the total as an integer. *)
Theorem increments_add_up w c key first amounts :
  _redis_client (proc w) = Some c ->
  Redis.online (backend w) = true ->
  Redis.live key (backend w) = None ->
  Forall int64 (first :: amounts) ->
  Forall int64 (running_totals 0 (first :: amounts)) ->
  fst (run (map (fun a => Do (Op_increment key a None)) (first :: amounts)) w)
  = map (fun total => Returned (Count (Some total))) (running_totals 0 (first :: amounts))
  /\ Redis.live key
       (backend (snd (run (map (fun a => Do (Op_increment key a None))
                             (first :: amounts)) w)))
     = Some (Redis.Entry (Doc (JInt (foldr Z.add 0 (first :: amounts)))) None)
  /\ fst (RedisCache.get key
            (snd (run (map (fun a => Do (Op_increment key a None))
                         (first :: amounts)) w)))
     = Returned (PInt (foldr Z.add 0 (first :: amounts))).
Proof.
  intros Hc Hon Hfresh _ Htotals.
  apply running_totals_last in Htotals. rewrite Z.add_0_l in Htotals.
  cbn [map run running_totals foldr] in *.
  assert (perform (Op_increment key first None) w
          = (Returned (Count (Some first)),
             snd (RedisCache.increment key first None w))) as ->.
  { unfold perform, bind.
    by rewrite (increment_fresh w c key first None Hc Hon Hfresh). }
  rewrite (increment_fresh w c key first None Hc Hon Hfresh). cbn [snd].
  set (w1 := World _ _ _).
  assert (counting w1 c key first None) as Hcount1.
  { subst w1. unfold counting. cbn [proc backend]. repeat split; [done|done|].
    by rewrite live_inserted. }
  destruct (increments_from c key amounts w1 first None Hcount1)
    as [Ha (Hc2 & Hon2 & Hlive2)].
  destruct (run _ w1) as [outs w2]. cbn [fst snd] in *. subst outs.
  split; [done|]. split; [done|].
  rewrite (get_reads _ c) by done. rewrite Hlive2.
  unfold json_loads. cbn [scan]. by rewrite (int64_fits _ Htotals).
Qed.

(** X15.  The test "the answer equals the amount" also fires on a counter
    that exists and stands at 0: an [increment] with a positive ttl then
    sends the expiry request although it created nothing, and replaces
    whatever deadline the counter had (or its absence) by one ttl from
    now. *)
Theorem counter_at_zero_is_rearmed w c key amount ttl dl :
  counting w c key 0 dl ->
  0 < ttl ->
  fst (RedisCache.increment key amount (Some ttl) w) = Returned (Some amount)
  /\ wire (snd (RedisCache.increment key amount (Some ttl) w))
     = wire w ++ [INCRBY key amount; EXPIRE key ttl]
  /\ Redis.live key (backend (snd (RedisCache.increment key amount (Some ttl) w)))
     = Some (Redis.Entry (Doc (JInt amount)) (Some (Redis.now (backend w) + ttl))).
Proof.
  intros (Hc & Hon & Hlive) Httl.
  pose proof (live_not_expired _ _ _ Hlive) as Hexp.
  unfold RedisCache.increment, bind, read, try_except, call, ret. cbv beta.
  cbn [fst snd]. rewrite Hc. cbn [redis_incr Redis.is_backend].
  unfold Redis.incrby. rewrite Hon, Hlive. cbn.
  rewrite Z.eqb_refl, andb_true_r.
  destruct (Z.eqb_spec ttl 0) as [|_]; [lia|]. cbn.
  unfold Redis.expire. cbn. rewrite Hon, live_inserted.
  unfold Redis.expired in *. cbn in *. rewrite Hexp.
  destruct (Z.leb_spec ttl 0) as [|_]; [lia|]. cbn.
  split; [done|]. split; [by rewrite <- app_assoc|].
  unfold Redis.live. cbn. rewrite lookup_insert_eq.
  unfold Redis.expired. cbn.
  by destruct (Z.leb_spec (Redis.now (backend w) + ttl) (Redis.now (backend w)));
    [lia|].
Qed.

(** X16.  A key that holds something other than an integer cannot be
    counted: [increment] sends the request, the server refuses it, the
    error is logged and [None] is returned, with the stored value left as
    it was.  So if the key of an identifier holds such a value,
    [is_allowed] allows the request. *)
Theorem foreign_value_is_not_counted w c key e :
  _redis_client (proc w) = Some c ->
  Redis.online (backend w) = true ->
  Redis.live key (backend w) = Some e ->
  Redis.int_of_text (Redis.payload e) = None ->
  (forall amount ttl,
     RedisCache.increment key amount ttl w
     = (Returned None,
        World
          (with_record
             (LogRecord ERROR
                "Redis INCR error: value is not an integer or out of range" [])
             (proc w))
          (backend w) (wire w ++ [INCRBY key amount])))
  /\ (forall identifier max_requests window_seconds,
        key = "ratelimit:" +:+ identifier ->
        fst (RateLimiter.is_allowed identifier max_requests window_seconds w)
        = Returned true).
Proof.
  intros Hc Hon Hlive Hforeign.
  assert (forall amount ttl,
            RedisCache.increment key amount ttl w
            = (Returned None,
               World
                 (with_record
                    (LogRecord ERROR
                       "Redis INCR error: value is not an integer or out of range" [])
                    (proc w))
                 (backend w) (wire w ++ [INCRBY key amount]))) as Hincr.
  { intros amount ttl.
    unfold RedisCache.increment, bind, read, try_except, call, ret, logger, modify.
    cbv beta. cbn [fst snd]. rewrite Hc. cbn [redis_incr Redis.is_backend].
    unfold Redis.incrby. by rewrite Hon, Hlive, Hforeign. }
  split; [done|].
  intros identifier max_requests window_seconds ->.
  apply is_allowed_without_count. by rewrite Hincr.
Qed.

(** X17.  A counter can be seeded with [set]: after [set(key, n, ttl)]
    with an integer [n], an [increment] by [amount] made before the ttl
    has elapsed returns [n + amount], and the key keeps the deadline that
    [set] gave it, provided [n], [amount] and [n + amount] are in the
    range of the server's integers. *)
Theorem increment_after_set w c key n ttl gap amount :
  _redis_client (proc w) = Some c ->
  Redis.online (backend w) = true ->
  0 < ttl ->
  0 <= gap < ttl ->
  int64 n ->
  int64 amount ->
  int64 (n + amount) ->
  let w1 := environment (Redis.tick gap) (snd (RedisCache.set key (PInt n) ttl w)) in
  fst (RedisCache.increment key amount None w1) = Returned (Some (n + amount))
  /\ Redis.live key (backend (snd (RedisCache.increment key amount None w1)))
     = Some (Redis.Entry (Doc (JInt (n + amount)))
               (Some (Redis.now (backend w) + ttl))).
Proof.
  intros Hc Hon Httl Hgap Hn _ _ w1. subst w1.
  assert (encode (PInt n) = Returned (JInt n)) as Henc.
  { unfold encode. cbn [dumps]. by rewrite (int64_fits n Hn). }
  rewrite (set_stores w c key (PInt n) ttl (JInt n)) by done. cbn [snd].
  set (w1 := environment _ _).
  assert (counting w1 c key n (Some (Redis.now (backend w) + ttl))) as Hcount.
  { subst w1. unfold counting. cbn [environment proc backend].
    repeat split; [done|done|].
    rewrite live_after_set by lia. unfold Redis.expired. cbn.
    by destruct (Z.leb_spec (Redis.now (backend w) + ttl)
                   (Redis.now (backend w) + gap)); [lia|]. }
  rewrite (increment_existing w1 c key amount None n _ Hcount I). cbn [fst snd backend].
  split; [done|].
  rewrite live_inserted. unfold Redis.expired. subst w1. cbn.
  by destruct (Z.leb_spec (Redis.now (backend w) + ttl)
                 (Redis.now (backend w) + gap)); [lia|].
Qed.
End Timeline.

(** * Properties of the request-handling scaffold *)

(** ** Serialization without a hook *)

Section PlainSerialization.
Context `{Interpreter}.

(** A value of the JSON data model that is not nested too deep is
    written by [json.dumps] as a document that reads back as that
    value. *)
Lemma encode_plain_native v :
  json_native v = true ->
  (depth v <= recursion_budget)%nat ->
  exists d, encode_plain v = Returned d /\ json_loads (Doc d) = Returned v.
Proof.
  intros Hnat Hdepth.
  destruct (dumps_native false recursion_budget v Hnat Hdepth)
    as (d & Hd & Hdec & Hscan).
  exists d. split; [done|]. unfold json_loads. by rewrite Hscan, Hdec.
Qed.
End PlainSerialization.

(** ** shared/utils.py *)

Section UtilsProperties.
Context `{Interpreter}.


Lemma format_response_plain utcnow status value :
  Utils.format_response utcnow status value None
  = match encode_plain value with
    | Returned d => Done (Utils.Response status (default_headers utcnow) (Doc d))
    | Raised e => Fail (Builtin e)
    end.
Proof.
  unfold Utils.format_response, json_dumps, default_headers.
  by destruct (encode_plain value).
Qed.

(** X18.  [format_response] keeps the status code, serializes the body
    with [json.dumps], and merges the headers so that every header given
    by the caller is kept as given, also over [Content-Type] and
    [X-Timestamp], while the two defaults fill what the caller left out.
    It raises exactly when the body cannot be serialized, with the
    exception of [json.dumps]. *)
Theorem format_response_merges_headers (utcnow : string) (status : Z)
    (value : pyval) (given : option (gmap string string)) :
  match encode_plain value with
  | Returned d =>
      exists resp,
        Utils.format_response utcnow status value given = Done resp
        /\ Utils.statusCode resp = status
        /\ Utils.body resp = Doc d
        /\ forall name : string,
             Utils.headers resp !! name
             = match given with
               | Some g =>
                   match g !! name with
                   | Some v => Some v
                   | None => default_headers utcnow !! name
                   end
               | None => default_headers utcnow !! name
               end
  | Raised e => Utils.format_response utcnow status value given = Fail (Builtin e)
  end.
Proof.
  unfold Utils.format_response, json_dumps. fold (default_headers utcnow).
  destruct (encode_plain value) as [d|e]; [|done].
  eexists. split; [done|]. cbn. split; [done|]. split; [done|].
  intros name. destruct given as [g|]; [|done].
  case_bool_decide as Hg.
  - subst g. by rewrite lookup_empty.
  - rewrite lookup_union.
    by destruct (g !! name), (default_headers utcnow !! name).
Qed.

(** X19.  What [format_response] writes, [parse_json_body] reads back:
    for a body of the JSON data model (integers of at most 4300 digits,
    floats other than NaN) that is not nested deeper than the interpreter
    lets [json] go, the response is formatted without error and parsing
    its [body] text gives the body again. *)
Theorem parse_json_body_reads_format_response (utcnow : string) (status : Z)
    (value : pyval) (given : option (gmap string string)) :
  json_native value = true ->
  (depth value <= recursion_budget)%nat ->
  exists resp,
    Utils.format_response utcnow status value given = Done resp
    /\ Utils.parse_json_body (Some (Utils.body resp)) = Done value.
Proof.
  intros Hnat Hdepth.
  destruct (encode_plain_native value Hnat Hdepth) as (d & Hd & Hloads).
  unfold Utils.format_response, json_dumps. rewrite Hd.
  eexists. split; [done|]. unfold Utils.parse_json_body.
  cbn [Utils.body text_truthy]. by rewrite Hloads.
Qed.

(** X20.  Where the correlation id comes from.  If the event has a
    [requestContext] that is a dictionary, the id is its [requestId], or
    the empty string when it has none; the headers are not consulted.
    Without a [requestContext], the id is the [x-correlation-id] header,
    else the [x-request-id] header, else the empty string.  The lookup
    raises exactly when the [requestContext], or without it the
    [headers], is present and not a dictionary ([None], for instance). *)
Theorem correlation_id_sources (event : list (pykey * pyval)) :
  match Utils.dict_find "requestContext" event with
  | Some (PDict request_context) =>
      Utils.get_correlation_id event
      = Done match Utils.dict_find "requestId" request_context with
             | Some v => v
             | None => PStr ""
             end
  | Some _ => completes (Utils.get_correlation_id event) = false
  | None =>
      match Utils.dict_find "headers" event with
      | Some (PDict hs) =>
          Utils.get_correlation_id event
          = Done match Utils.dict_find "x-correlation-id" hs with
                 | Some v => v
                 | None =>
                     match Utils.dict_find "x-request-id" hs with
                     | Some v => v
                     | None => PStr ""
                     end
                 end
      | Some _ => completes (Utils.get_correlation_id event) = false
      | None => Utils.get_correlation_id event = Done (PStr "")
      end
  end.
Proof.
  unfold Utils.get_correlation_id.
  destruct (Utils.dict_find "requestContext" event) as [[]|]; try done.
  destruct (Utils.dict_find "headers" event) as [[]|]; done.
Qed.
End UtilsProperties.

(** ** The handler *)

Section HandlerProperties.
Context `{Interpreter}.


Lemma issubclass_validation (k : Exceptions.class) :
  Exceptions.issubclass k Exceptions.ValidationError
  = Exceptions.same k Exceptions.ValidationError.
Proof. by destruct k. Qed.


Lemma encode_plain_three k1 k2 k3 v1 v2 v3 :
  encode_plain (PDict [(KStr k1, v1); (KStr k2, v2); (KStr k3, v3)])
  = and_then (encode_member v1) (fun d1 =>
    and_then (encode_member v2) (fun d2 =>
    and_then (encode_member v3) (fun d3 =>
    Returned (JObj [(k1, d1); (k2, d2); (k3, d3)])))).
Proof.
  unfold encode_plain, encode_member.
  destruct recursion_budget as [|budget]; [done|].
  cbn [dumps map sequence key_name fst snd and_then].
  destruct (dumps false budget v1); cbn; [|done].
  destruct (dumps false budget v2); cbn; [|done].
  by destruct (dumps false budget v3).
Qed.

Lemma encode_member_str s :
  encode_member (PStr s)
  = match recursion_budget with O => Raised too_deep | S _ => Returned (JStr s) end.
Proof. unfold encode_member. by destruct recursion_budget. Qed.

Lemma format_error utcnow status error message cid :
  Utils.format_response utcnow status
    (PDict [(KStr "error", PStr error); (KStr "message", PStr message);
            (KStr "correlation_id", cid)]) None
  = match encode_member cid with
    | Returned dc => Done (error_response utcnow status error message dc)
    | Raised e => Fail (Builtin e)
    end.
Proof.
  rewrite format_response_plain, encode_plain_three. unfold encode_member.
  destruct recursion_budget as [|budget]; [done|]. cbn.
  by destruct (dumps false budget cid).
Qed.

Lemma format_success utcnow data cid :
  Utils.format_response utcnow 200
    (PDict [(KStr "message", PStr "Success"); (KStr "data", data);
            (KStr "correlation_id", cid)]) None
  = match encode_member data, encode_member cid with
    | Returned dd, Returned dc => Done (success_response utcnow dd dc)
    | Raised e, _ => Fail (Builtin e)
    | Returned _, Raised e => Fail (Builtin e)
    end.
Proof.
  rewrite format_response_plain, encode_plain_three. unfold encode_member.
  destruct recursion_budget as [|budget]; [done|]. cbn.
  destruct (dumps false budget data); cbn; [|done].
  by destruct (dumps false budget cid).
Qed.


Lemma handler_returns_result
    (process : list (pykey * pyval) -> Handler.context -> Handler.emitting pyval)
    (utcnow : string) (event : list (pykey * pyval)) (ctx : Handler.context)
    (cid data : pyval) (resp : Utils.response) :
  event <> [] ->
  Utils.get_correlation_id event = Done cid ->
  snd (process event ctx) = Done data ->
  Utils.format_response utcnow 200
    (PDict [(KStr "message", PStr "Success"); (KStr "data", data);
            (KStr "correlation_id", cid)]) None
  = Done resp ->
  snd (Handler.lambda_handler_with process utcnow event ctx) = Done resp.
Proof.
  intros Hne Hcid Hp Hfmt.
  unfold Handler.lambda_handler_with. rewrite Hcid.
  unfold Handler.validate_event, Handler.then_, Handler.try_, Handler.of_attempt,
    Handler.emit, Handler.pure.
  destruct event as [|item event]; [done|].
  destruct (process (item :: event) ctx) as [out r]. cbn [snd] in Hp. subst r.
  cbv beta iota zeta. cbn [fst snd].
  by rewrite Hfmt.
Qed.

(** Under decorators that pass the invocation through, the caller gets
    what the decorated function returns or raises. *)
Lemma decorated_passes (pt : Handler.powertools)
    (process : list (pykey * pyval) -> Handler.context -> Handler.emitting pyval)
    (utcnow : string) (event : list (pykey * pyval)) (ctx : Handler.context) :
  Handler.transparent pt event ctx ->
  snd (Handler.decorated pt process utcnow event ctx)
  = snd (Handler.lambda_handler_with process utcnow event ctx).
Proof.
  intros (Hinject & Hcapture & Hmetrics). unfold Handler.decorated.
  by rewrite Hinject, Hcapture, Hmetrics.
Qed.



Lemma dict_find_native name items v :
  json_native (PDict items) = true ->
  Utils.dict_find name items = Some v ->
  json_native v = true.
Proof.
  cbn [json_native]. intros [Hall _]%andb_true_iff.
  induction items as [|[k x] items IH]; [done|].
  cbn in Hall. apply andb_true_iff in Hall as [Hkx Hall].
  apply andb_true_iff in Hkx as [Hk Hx].
  destruct k as [ | | | |s| ]; try done. cbn.
  destruct (String.eqb s name); [by intros [= <-]|by apply IH].
Qed.

Lemma dict_find_depth name items v :
  Utils.dict_find name items = Some v ->
  (S (depth v) <= depth (PDict items))%nat.
Proof.
  cbn [depth]. intros Hfind. apply le_n_S.
  induction items as [|[k x] items IH]; [done|].
  change (list_max (map (fun kv => depth (snd kv)) ((k, x) :: items)))
    with (Nat.max (depth x) (list_max (map (fun kv => depth (snd kv)) items))).
  cbn in Hfind.
  destruct k as [ | | | |s| ]; try (specialize (IH Hfind); lia).
  destruct (String.eqb s name); [|specialize (IH Hfind); lia].
  injection Hfind as <-. lia.
Qed.

Lemma get_correlation_id_native event cid :
  json_native (PDict event) = true ->
  Utils.get_correlation_id event = Done cid ->
  json_native cid = true /\ (S (depth cid) <= depth (PDict event))%nat.
Proof.
  intros Hnat. unfold Utils.get_correlation_id.
  assert (1 <= depth (PDict event))%nat as Hone by (cbn [depth]; lia).
  destruct (Utils.dict_find "requestContext" event) as [rc|] eqn:Hrc.
  - pose proof (dict_find_native _ _ _ Hnat Hrc) as Hrcn.
    pose proof (dict_find_depth _ _ _ Hrc) as Hrcd.
    destruct rc as [ | | | | | | |items| ]; try done. cbn [Utils.py_get].
    destruct (Utils.dict_find "requestId" items) as [v|] eqn:Hv; intros [= <-];
      [|done].
    split; [by apply (dict_find_native "requestId" items)|].
    pose proof (dict_find_depth _ _ _ Hv). lia.
  - destruct (Utils.dict_find "headers" event) as [h|] eqn:Hh.
    + pose proof (dict_find_native _ _ _ Hnat Hh) as Hhn.
      pose proof (dict_find_depth _ _ _ Hh) as Hhd.
      destruct h as [ | | | | | | |hs| ]; try done. cbn [Utils.py_get].
      destruct (Utils.dict_find "x-correlation-id" hs) as [v|] eqn:Hv.
      * intros [= <-]. split; [by apply (dict_find_native "x-correlation-id" hs)|].
        pose proof (dict_find_depth _ _ _ Hv). lia.
      * destruct (Utils.dict_find "x-request-id" hs) as [v|] eqn:Hv'; intros [= <-];
          [|done].
        split; [by apply (dict_find_native "x-request-id" hs)|].
        pose proof (dict_find_depth _ _ _ Hv'). lia.
    + cbn. by intros [= <-].
Qed.

Lemma process_event_result event ctx :
  snd (Handler.process_event event ctx)
  = match encode_plain (PDict event) with
    | Returned _ =>
        Done (PDict
                [(KStr "function", PStr "response-validator");
                 (KStr "request_id",
                  match Handler.aws_request_id ctx with
                  | Some r => PStr r
                  | None => PNone
                  end);
                 (KStr "remaining_time_ms",
                  match Handler.get_remaining_time_in_millis ctx with
                  | Some ms => PInt ms
                  | None => PNone
                  end)])
    | Raised e => Fail (Builtin e)
    end.
Proof.
  unfold Handler.process_event, Handler.then_, Handler.of_attempt, Handler.emit,
    Handler.pure, json_dumps.
  by destruct (encode_plain (PDict event)).
Qed.

(** X23.  [lambda_handler] as shipped, with its decorators, in an
    invocation that they pass through, for a context with a request id
    and a remaining time, on an event that is a non-empty JSON object
    (integers of at most 4300 digits, no NaN, not nested deeper than the
    interpreter lets [json] go) whose correlation id can be looked up: it
    answers 200 with the default headers, and the body, parsed back, is a
    dictionary with the message [Success], the data of [process_event]
    (the function name, the request id and the remaining time of the
    context) and the correlation id of the event, unchanged. *)
Theorem handler_succeeds_on_json_events (pt : Handler.powertools) (utcnow : string)
    (event : list (pykey * pyval)) (ctx : Handler.context) (cid : pyval)
    (request_id : string) (remaining : Z) :
  Handler.transparent pt event ctx ->
  Handler.aws_request_id ctx = Some request_id ->
  Handler.get_remaining_time_in_millis ctx = Some remaining ->
  int64 remaining ->
  json_native (PDict event) = true ->
  (depth (PDict event) <= recursion_budget)%nat ->
  (2 <= recursion_budget)%nat ->
  event <> [] ->
  Utils.get_correlation_id event = Done cid ->
  exists resp,
    snd (Handler.decorated pt Handler.process_event utcnow event ctx) = Done resp
    /\ Utils.statusCode resp = 200
    /\ Utils.headers resp = default_headers utcnow
    /\ Utils.parse_json_body (Some (Utils.body resp))
       = Done (PDict
                 [(KStr "message", PStr "Success");
                  (KStr "data",
                   PDict
                     [(KStr "function", PStr "response-validator");
                      (KStr "request_id", PStr request_id);
                      (KStr "remaining_time_ms", PInt remaining)]);
                  (KStr "correlation_id", cid)]).
Proof.
  intros Hpt Hrid Hms Hrange Hnat Hdepth Htwo Hne Hcid.
  rewrite (decorated_passes pt _ utcnow event ctx Hpt).
  destruct (get_correlation_id_native event cid Hnat Hcid) as [Hcn Hcd].
  pose proof (process_event_result event ctx) as Hp.
  destruct (encode_plain_native (PDict event) Hnat Hdepth) as (de & Hde & _).
  rewrite Hde, Hrid, Hms in Hp.
  set (answer := PDict
                   [(KStr "message", PStr "Success");
                    (KStr "data",
                     PDict
                       [(KStr "function", PStr "response-validator");
                        (KStr "request_id", PStr request_id);
                        (KStr "remaining_time_ms", PInt remaining)]);
                    (KStr "correlation_id", cid)]).
  assert (json_native answer = true) as Han.
  { subst answer. cbn. by rewrite (int64_fits remaining Hrange), Hcn. }
  assert (depth answer <= recursion_budget)%nat as Had.
  { subst answer. cbn [depth map list_max fold_right snd]. lia. }
  destruct (encode_plain_native answer Han Had) as (d & Hd & Hloads).
  exists (Utils.Response 200 (default_headers utcnow) (Doc d)).
  split.
  - apply (handler_returns_result _ utcnow event ctx cid _ _ Hne Hcid Hp).
    fold answer. by rewrite format_response_plain, Hd.
  - repeat apply conj; try done.
    unfold Utils.parse_json_body. cbn [Utils.body text_truthy]. by rewrite Hloads.
Qed.

Lemma metrics_of_app out out' :
  metrics_of (out ++ out') = metrics_of out ++ metrics_of out'.
Proof.
  induction out as [|[lv msg payload extra|name value] out IH]; cbn; [done|done|].
  by rewrite IH.
Qed.

Lemma encode_member_data (ctx : Handler.context) :
  (2 <= recursion_budget)%nat ->
  Handler.timed ctx ->
  returns
    (encode_member
       (PDict
          [(KStr "function", PStr "response-validator");
           (KStr "request_id",
            match Handler.aws_request_id ctx with
            | Some r => PStr r
            | None => PNone
            end);
           (KStr "remaining_time_ms",
            match Handler.get_remaining_time_in_millis ctx with
            | Some ms => PInt ms
            | None => PNone
            end)]))
  = true.
Proof.
  unfold encode_member, Handler.timed. intros Htwo Hms.
  destruct recursion_budget as [|[|budget]]; [lia|lia|].
  destruct (Handler.aws_request_id ctx),
    (Handler.get_remaining_time_in_millis ctx) as [ms|];
    cbn; rewrite ?(int64_fits ms Hms); done.
Qed.

(** X24.  The function as shipped counts every invocation it answers
    twice and no more: once as [FunctionInvocation], and once under the
    metric that goes with the status it returned, [SuccessfulProcessing]
    for 200, [ValidationError] for 400 and [UnexpectedError] for 500;
    this for a context whose remaining time is a machine integer, in an
    interpreter that can still nest two calls.  (Without these, the data
    of [process_event] cannot be written into the response: the 200
    branch has counted [SuccessfulProcessing] by then, and the handler
    counts [UnexpectedError] as well.) *)
Theorem handler_counts_each_answer_once (utcnow : string)
    (event : list (pykey * pyval)) (ctx : Handler.context) (resp : Utils.response) :
  (2 <= recursion_budget)%nat ->
  Handler.timed ctx ->
  snd (Handler.lambda_handler utcnow event ctx) = Done resp ->
  metrics_of (fst (Handler.lambda_handler utcnow event ctx))
  = ["FunctionInvocation";
     if Utils.statusCode resp =? 200 then "SuccessfulProcessing"
     else if Utils.statusCode resp =? 400 then "ValidationError"
     else "UnexpectedError"].
Proof.
  intros Htwo Hms. pose proof (encode_member_data ctx Htwo Hms) as Hdata.
  unfold Handler.lambda_handler, Handler.lambda_handler_with.
  destruct (Utils.get_correlation_id event) as [cid|r] eqn:Hcid; [|done].
  unfold Handler.validate_event, Handler.process_event, Handler.then_,
    Handler.try_, Handler.of_attempt, Handler.emit, Handler.pure, json_dumps.
  destruct event as [|item event].
  { cbv beta iota zeta. rewrite issubclass_validation. cbn [Exceptions.same].
    rewrite format_error. destruct (encode_member cid); cbn; [|done].
    by intros [= <-]. }
  destruct (encode_plain (PDict (item :: event))) as [de|e];
    cbv beta iota zeta; cbn [fst snd app];
    rewrite ?format_success, ?format_error.
  - match goal with |- context [encode_member (PDict ?items)] =>
      destruct (encode_member (PDict items)) end; [|done].
    destruct (encode_member cid) eqn:Hdc; cbn; try done;
      rewrite ?format_error, ?Hdc; cbn; try done; by intros [= <-].
  - destruct (encode_member cid); cbn; [|done]. by intros [= <-].
Qed.
End HandlerProperties.

(** ** shared/config.py *)

Section ConfigProperties.
Context `{Interpreter} (real : Type) (py_float : string -> outcome real).

(** X25.  [Config()] raises exactly when one of the three numeric
    settings, [BEDROCK_MAX_TOKENS], [BEDROCK_TEMPERATURE] or [REDIS_PORT]
    (each with its default when unset), does not convert; no other
    setting can make it fail. *)
Theorem config_needs_three_numbers (env : gmap string string) :
  returns (Config.__init__ real py_float env)
  = returns (py_int (Config.getenv env "BEDROCK_MAX_TOKENS" "1000"))
    && returns (py_float (Config.getenv env "BEDROCK_TEMPERATURE" "0.7"))
    && returns (py_int (Config.getenv env "REDIS_PORT" "6379")).
Proof.
  unfold Config.__init__.
  destruct (py_int (Config.getenv env "BEDROCK_MAX_TOKENS" "1000")); cbn; [|done].
  destruct (py_float (Config.getenv env "BEDROCK_TEMPERATURE" "0.7")); cbn; [|done].
  by destruct (py_int (Config.getenv env "REDIS_PORT" "6379")).
Qed.

(** X26.  [to_dict] shows five settings and depends on nothing else: two
    configurations built from environments that agree on [ENVIRONMENT],
    [LOG_LEVEL], [AWS_REGION], [JSON_LOGGING] and
    [POWERTOOLS_SERVICE_NAME] have the same [to_dict], however they differ
    elsewhere, the cache token and the endpoints included. *)
Theorem to_dict_shows_five_settings (env env' : gmap string string)
    (c c' : Config.config real) :
  Config.__init__ real py_float env = Returned c ->
  Config.__init__ real py_float env' = Returned c' ->
  Forall (fun name => env !! name = env' !! name) shown_settings ->
  Config.to_dict real c = Config.to_dict real c'.
Proof.
  unfold Config.__init__, Config.getenv, shown_settings.
  intros Hc Hc' Hsame.
  repeat (apply Forall_cons in Hsame as [Heq Hsame]; rewrite Heq in Hc; clear Heq).
  destruct (py_int _) in Hc; cbn in Hc; [|done].
  destruct (py_float _) in Hc; cbn in Hc; [|done].
  destruct (py_int _) in Hc; cbn in Hc; [|done].
  destruct (py_int _) in Hc'; cbn in Hc'; [|done].
  destruct (py_float _) in Hc'; cbn in Hc'; [|done].
  destruct (py_int _) in Hc'; cbn in Hc'; [|done].
  by simplify_eq.
Qed.

(** X27.  The configuration is read once.  After a call of [from_env]
    that succeeded, every later call returns that same configuration,
    whatever the environment has become since; a call that raised leaves
    the cache empty, so that the next call reads the environment anew. *)
Theorem from_env_reads_once (env : gmap string string)
    (later : list (gmap string string)) :
  match Config.__init__ real py_float env with
  | Returned c =>
      from_env_calls real py_float (env :: later) None
      = replicate (S (length later)) (Returned c)
  | Raised e =>
      from_env_calls real py_float (env :: later) None
      = Raised e :: from_env_calls real py_float later None
  end.
Proof.
  cbn [from_env_calls]. unfold Config.from_env.
  destruct (Config.__init__ real py_float env) as [c|e]; cbv iota beta; [|done].
  cbn [replicate]. f_equal.
  induction later as [|env' later IH]; [done|].
  cbn [from_env_calls Config.from_env length replicate]. by rewrite IH.
Qed.

(** X28.  The cache client and [Config] read the same settings with the
    same defaults: in one environment, the client that [_connect] builds
    has the endpoint, the port and the token that the configuration
    reports, and the port that stops one from being built stops the
    other. *)
Theorem client_follows_config {B : Type} `{Backend B} (w : world B) :
  (forall c cfg,
     fst (RedisCache.redis_Redis w) = Returned c ->
     Config.__init__ real py_float (environ (proc w)) = Returned cfg ->
     host c = Config.redis_endpoint real cfg
     /\ port c = Config.redis_port real cfg
     /\ password c = Config.redis_auth_token real cfg)
  /\ (returns (fst (RedisCache.redis_Redis w)) = false ->
      returns (Config.__init__ real py_float (environ (proc w))) = false).
Proof.
  split.
  - intros c cfg. unfold RedisCache.redis_Redis; unfold_monad; cbn.
    unfold Config.__init__, Config.getenv.
    destruct (py_int match environ (proc w) !! "BEDROCK_MAX_TOKENS" with
                     | Some v => v
                     | None => "1000"
                     end); cbn; [|done].
    destruct (py_float _); cbn; [|done].
    destruct (py_int match environ (proc w) !! "REDIS_PORT" with
                     | Some v => v
                     | None => "6379"
                     end); cbn; [|done].
    by intros [= <-] [= <-].
  - unfold RedisCache.redis_Redis; unfold_monad; cbn.
    unfold Config.__init__, Config.getenv.
    destruct (py_int match environ (proc w) !! "REDIS_PORT" with
                     | Some v => v
                     | None => "6379"
                     end); cbn; [done|].
    intros _.
    destruct (py_int match environ (proc w) !! "BEDROCK_MAX_TOKENS" with
                     | Some v => v
                     | None => "1000"
                     end); cbn; [|done].
    by destruct (py_float _).
Qed.
End ConfigProperties.

(** ** The further properties at sample inputs *)

Lemma instantiate_again_keeps_the_connection_witness :
  _redis_client (proc (instantiated serving)) = Some configured
  /\ wire (instantiated serving) = wire serving
  /\ backend (instantiated serving) = backend serving
  /\ _instance (proc (instantiated serving)) = true.
Proof.
  exact (instantiate_again_keeps_the_connection serving configured eq_refl).
Defined.

Lemma handle_only_holds_the_configured_client_witness :
  fst (RedisCache.redis_Redis (boot true (empty_server true))) = Returned configured
  /\ hardened configured.
Proof.
  exact (handle_only_holds_the_configured_client
           [Do (Op_get "k"); Instantiate; Env Redis.unplug; Do (Op_delete "k")]
           (boot true (empty_server true)) configured eq_refl eq_refl).
Defined.

Lemma malformed_port_disables_the_handle_witness :
  fst (RedisCache.RedisCache misconfigured) = Returned tt
  /\ _redis_client (proc (instantiated misconfigured)) = None
  /\ wire (instantiated misconfigured) = wire misconfigured
  /\ backend (instantiated misconfigured) = backend misconfigured
  /\ journal (proc (instantiated misconfigured))
     = journal (proc misconfigured)
       ++ [LogRecord ERROR "Failed to connect to Redis" []].
Proof.
  exact (malformed_port_disables_the_handle misconfigured eq_refl eq_refl eq_refl).
Defined.

Lemma operations_touch_one_key_witness :
  Redis.live "b"
    (backend (snd (perform (Op_set "a" (PInt 1) 60)
                     (snd (RedisCache.set "b" (PStr "v") 60 serving)))))
  = Redis.live "b" (backend (snd (RedisCache.set "b" (PStr "v") 60 serving))).
Proof.
  apply (operations_touch_one_key (Op_set "a" (PInt 1) 60)
           (snd (RedisCache.set "b" (PStr "v") 60 serving)) "b").
  discriminate.
Defined.

Lemma identifiers_count_separately_witness :
  Redis.live ("ratelimit:" +:+ "user-2")
    (backend (snd (RateLimiter.is_allowed "user-1" 3 60
                     (snd (RateLimiter.is_allowed "user-2" 3 60 serving)))))
  = Redis.live ("ratelimit:" +:+ "user-2")
      (backend (snd (RateLimiter.is_allowed "user-2" 3 60 serving))).
Proof.
  apply (identifiers_count_separately
           (snd (RateLimiter.is_allowed "user-2" 3 60 serving))
           "user-1" "user-2" 3 60).
  discriminate.
Defined.

Lemma get_after_delete_witness :
  fst (RedisCache.delete "k" serving) = Returned true
  /\ fst (RedisCache.get "k"
            (environment (Redis.tick 5) (snd (RedisCache.delete "k" serving))))
     = Returned PNone.
Proof.
  apply (get_after_delete serving configured "k" 5 eq_refl eq_refl). lia.
Defined.

Lemma set_needs_a_positive_ttl_witness :
  fst (RedisCache.set "k" (PStr "v") (-1) serving) = Returned false
  /\ backend (snd (RedisCache.set "k" (PStr "v") (-1) serving)) = backend serving.
Proof.
  apply (set_needs_a_positive_ttl serving configured "k" (PStr "v") (-1)
           eq_refl eq_refl).
  lia.
Defined.

Lemma last_write_wins_witness :
  fst (RedisCache.get "k"
         (environment (Redis.tick 59)
            (snd (RedisCache.set "k" (PList [PFloat "0.5"; PStr "new"]) 60
                    (environment (Redis.tick 10)
                       (snd (RedisCache.set "k" (PInt (10 ^ 4300)) 5 serving)))))))
  = Returned (PList [PFloat "0.5"; PStr "new"])
  /\ fst (RedisCache.get "k"
            (environment (Redis.tick 60)
               (snd (RedisCache.set "k" (PList [PFloat "0.5"; PStr "new"]) 60
                       (environment (Redis.tick 10)
                          (snd (RedisCache.set "k" (PInt (10 ^ 4300)) 5 serving)))))))
     = Returned PNone.
Proof.
  assert (depth (PList [PFloat "0.5"; PStr "new"]) <= recursion_budget)%nat
    as Hdepth by (cbn; lia).
  split.
  - apply (last_write_wins serving configured "k" (PInt (10 ^ 4300))
             (PList [PFloat "0.5"; PStr "new"]) 5 60 10 59
             eq_refl eq_refl eq_refl eq_refl); [lia|reflexivity|exact Hdepth|lia].
  - apply (last_write_wins serving configured "k" (PInt (10 ^ 4300))
             (PList [PFloat "0.5"; PStr "new"]) 5 60 10 60
             eq_refl eq_refl eq_refl eq_refl); [lia|reflexivity|exact Hdepth|lia].
Defined.

Lemma denial_ends_with_the_window_witness :
  fst (run (paced (Op_is_allowed "user-1" 3 60) [0; 10; 20]
            ++ [Env (Redis.tick 30); Do (Op_is_allowed "user-1" 3 60)]) serving)
  = [Returned (Flag true); Returned (Flag true); Returned (Flag true);
     Returned (Flag false); Returned (Flag true)]
  /\ Redis.live ("ratelimit:" +:+ "user-1")
       (backend
          (snd (run (paced (Op_is_allowed "user-1" 3 60) [0; 10; 20]
                     ++ [Env (Redis.tick 30); Do (Op_is_allowed "user-1" 3 60)])
                  serving)))
     = Some (Redis.Entry (Doc (JInt 1)) (Some 120)).
Proof.
  apply (denial_ends_with_the_window serving configured "user-1" 3 60 [0; 10; 20] 30).
  - lia.
  - lia.
  - reflexivity.
  - reflexivity.
  - reflexivity.
  - reflexivity.
  - repeat constructor; discriminate.
  - reflexivity.
  - discriminate.
Defined.

Lemma counter_without_deadline_stays_blocked_witness :
  Forall (fun a => a = Returned (Flag false))
    (fst (run (flat_map (fun d => [Env (Redis.tick d);
                                   Do (Op_is_allowed "user-1" 3 60)]) [100; 1000])
            (snd (RedisCache.increment "ratelimit:user-1" 3 None serving))))
  /\ Redis.live ("ratelimit:" +:+ "user-1")
       (backend
          (snd (run (flat_map (fun d => [Env (Redis.tick d);
                                         Do (Op_is_allowed "user-1" 3 60)])
                       [100; 1000])
                  (snd (RedisCache.increment "ratelimit:user-1" 3 None serving)))))
     = Some (Redis.Entry (Doc (JInt (3 + Z.of_nat (length [100; 1000])))) None).
Proof.
  apply (counter_without_deadline_stays_blocked
           (snd (RedisCache.increment "ratelimit:user-1" 3 None serving))
           configured "user-1" 3 60 3 [100; 1000]).
  - repeat apply conj; reflexivity.
  - lia.
  - lia.
  - repeat constructor; discriminate.
  - unfold int64. cbn. lia.
Defined.

Lemma increments_add_up_witness :
  fst (run (map (fun a => Do (Op_increment "k" a None)) [2; 3; -1]) serving)
  = map (fun total => Returned (Count (Some total))) (running_totals 0 [2; 3; -1])
  /\ Redis.live "k"
       (backend (snd (run (map (fun a => Do (Op_increment "k" a None)) [2; 3; -1])
                        serving)))
     = Some (Redis.Entry (Doc (JInt (foldr Z.add 0 [2; 3; -1]))) None)
  /\ fst (RedisCache.get "k"
            (snd (run (map (fun a => Do (Op_increment "k" a None)) [2; 3; -1])
                    serving)))
     = Returned (PInt (foldr Z.add 0 [2; 3; -1])).
Proof.
  apply (increments_add_up serving configured "k" 2 [3; -1] eq_refl eq_refl eq_refl).
  - repeat constructor; unfold int64; lia.
  - cbn. repeat constructor; unfold int64; lia.
Defined.

Lemma counter_at_zero_is_rearmed_witness :
  fst (RedisCache.increment "k" 4 (Some 60)
         (snd (RedisCache.increment "k" 0 None serving)))
  = Returned (Some 4)
  /\ wire (snd (RedisCache.increment "k" 4 (Some 60)
                  (snd (RedisCache.increment "k" 0 None serving))))
     = wire (snd (RedisCache.increment "k" 0 None serving))
       ++ [INCRBY "k" 4; EXPIRE "k" 60]
  /\ Redis.live "k"
       (backend (snd (RedisCache.increment "k" 4 (Some 60)
                        (snd (RedisCache.increment "k" 0 None serving)))))
     = Some (Redis.Entry (Doc (JInt 4))
               (Some (Redis.now
                        (backend (snd (RedisCache.increment "k" 0 None serving)))
                      + 60))).
Proof.
  apply (counter_at_zero_is_rearmed
           (snd (RedisCache.increment "k" 0 None serving)) configured "k" 4 60 None).
  - repeat apply conj; reflexivity.
  - lia.
Defined.

Lemma foreign_value_is_not_counted_witness :
  fst (RedisCache.increment "ratelimit:user-1" 1 (Some 60)
         (snd (RedisCache.set "ratelimit:user-1" (PStr "blocked") 300 serving)))
  = Returned None
  /\ fst (RateLimiter.is_allowed "user-1" 3 60
            (snd (RedisCache.set "ratelimit:user-1" (PStr "blocked") 300 serving)))
     = Returned true.
Proof.
  destruct (foreign_value_is_not_counted
              (snd (RedisCache.set "ratelimit:user-1" (PStr "blocked") 300 serving))
              configured "ratelimit:user-1"
              (Redis.Entry (Doc (JStr "blocked")) (Some 300)))
    as [Hincrement Hallowed]; [reflexivity|reflexivity|reflexivity|reflexivity|].
  split.
  - by rewrite (Hincrement 1 (Some 60)).
  - exact (Hallowed "user-1" 3 60 eq_refl).
Defined.

Lemma increment_after_set_witness :
  fst (RedisCache.increment "k" 2 None
         (environment (Redis.tick 10)
            (snd (RedisCache.set "k" (PInt 40) 60 serving))))
  = Returned (Some 42)
  /\ Redis.live "k"
       (backend (snd (RedisCache.increment "k" 2 None
                        (environment (Redis.tick 10)
                           (snd (RedisCache.set "k" (PInt 40) 60 serving))))))
     = Some (Redis.Entry (Doc (JInt 42)) (Some 60)).
Proof.
  apply (increment_after_set serving configured "k" 40 60 10 2 eq_refl eq_refl);
    unfold int64; lia.
Defined.

Lemma parse_json_body_reads_format_response_witness :
  exists resp,
    Utils.format_response "2024-01-01T00:00:00" 200
      (PDict [(KStr "message", PStr "Success");
              (KStr "items", PList [PInt 1; PNone; PFloat "2.5"])])
      None = Done resp
    /\ Utils.parse_json_body (Some (Utils.body resp))
       = Done (PDict [(KStr "message", PStr "Success");
                      (KStr "items", PList [PInt 1; PNone; PFloat "2.5"])]).
Proof.
  apply (parse_json_body_reads_format_response "2024-01-01T00:00:00" 200
           (PDict [(KStr "message", PStr "Success");
                   (KStr "items", PList [PInt 1; PNone; PFloat "2.5"])])
           None eq_refl).
  cbn. lia.
Defined.



Lemma handler_succeeds_on_json_events_witness :
  exists resp,
    snd (Handler.decorated Handler.bare Handler.process_event
           "2024-01-01T00:00:00" gateway_event lambda_context)
    = Done resp
    /\ Utils.statusCode resp = 200
    /\ Utils.headers resp = default_headers "2024-01-01T00:00:00"
    /\ Utils.parse_json_body (Some (Utils.body resp))
       = Done (PDict
                 [(KStr "message", PStr "Success");
                  (KStr "data",
                   PDict
                     [(KStr "function", PStr "response-validator");
                      (KStr "request_id", PStr "aws-1");
                      (KStr "remaining_time_ms", PInt 3000)]);
                  (KStr "correlation_id", PStr "req-1")]).
Proof.
  apply (handler_succeeds_on_json_events Handler.bare "2024-01-01T00:00:00"
           gateway_event lambda_context (PStr "req-1") "aws-1" 3000).
  - repeat apply conj; intros f; reflexivity.
  - reflexivity.
  - reflexivity.
  - unfold int64. lia.
  - reflexivity.
  - cbn. lia.
  - cbn. lia.
  - discriminate.
  - reflexivity.
Defined.

(** When the stack is too short for the data of [process_event] to be
    written inside the response, the function has counted
    [SuccessfulProcessing] before [format_response] raises, and then
    counts [UnexpectedError] and answers 500. *)
Example formatting_failure_counts_twice :
  metrics_of
    (fst (@Handler.lambda_handler shallow "2024-01-01T00:00:00"
            [(KStr "body", PStr "{}")] lambda_context))
  = ["FunctionInvocation"; "SuccessfulProcessing"; "UnexpectedError"]
  /\ Utils.statusCode
       <$> (match snd (@Handler.lambda_handler shallow "2024-01-01T00:00:00"
                         [(KStr "body", PStr "{}")] lambda_context) with
            | Done resp => Some resp
            | Fail _ => None
            end)
     = Some 500.
Proof. split; by vm_compute. Qed.

Lemma handler_counts_each_answer_once_witness :
  metrics_of (fst (Handler.lambda_handler "2024-01-01T00:00:00" [] lambda_context))
  = ["FunctionInvocation"; "ValidationError"].
Proof.
  apply (handler_counts_each_answer_once "2024-01-01T00:00:00" [] lambda_context
           (error_response "2024-01-01T00:00:00" 400 "ValidationError"
              "Event cannot be empty" (JStr ""))).
  - cbn. lia.
  - unfold Handler.timed, int64. cbn. lia.
  - reflexivity.
Defined.

Lemma to_dict_shows_five_settings_witness :
  exists c c' : Config.config string,
    Config.__init__ string Returned (<["LOG_LEVEL" := "debug"]> ∅) = Returned c
    /\ Config.__init__ string Returned
         (<["LOG_LEVEL" := "debug"]>
            (<["REDIS_AUTH_TOKEN" := "s3cret"]> (<["REDIS_PORT" := "6380"]> ∅)))
       = Returned c'
    /\ Config.redis_port string c <> Config.redis_port string c'
    /\ Config.to_dict string c = Config.to_dict string c'.
Proof.
  eexists. eexists.
  split; [vm_compute; reflexivity|].
  split; [vm_compute; reflexivity|].
  split; [discriminate|].
  apply (to_dict_shows_five_settings string Returned
           (<["LOG_LEVEL" := "debug"]> ∅)
           (<["LOG_LEVEL" := "debug"]>
              (<["REDIS_AUTH_TOKEN" := "s3cret"]> (<["REDIS_PORT" := "6380"]> ∅)))).
  - vm_compute; reflexivity.
  - vm_compute; reflexivity.
  - repeat constructor.
Defined.

Lemma client_follows_config_witness :
  host configured = "cache.internal"
  /\ port configured = 6380
  /\ password configured = ""
  /\ returns (Config.__init__ string Returned (environ (proc misconfigured))) = false.
Proof.
  destruct (client_follows_config string Returned (boot true (empty_server true)))
    as [Hsame _].
  destruct (client_follows_config string Returned misconfigured) as [_ Hfails].
  destruct (Hsame configured
              (Config.Build string "dev" "INFO" "us-east-1" true
                 "customer-service-bot" "anthropic.claude-3-5-sonnet-20241022-v2:0"
                 1000 "0.7" "" "" "CustomerServiceBot" "cache.internal" 6380 "")
              eq_refl eq_refl) as (Hhost & Hport & Hpassword).
  repeat apply conj.
  - exact Hhost.
  - exact Hport.
  - exact Hpassword.
  - exact (Hfails eq_refl).
Defined.
